(** * The MCP proxy forwarding engine ([mcp.shared.proxy])

    A shallow embedding of [mcp_proxy] and of its inner coroutine
    [forward_messages].

    The coroutine is embedded as the state machine a Python coroutine is:
    it runs synchronously from one [await] to the next, and at each
    [await] it is suspended until its caller resumes it with the outcome
    of the awaited call (a value, an [Exception], or the cancellation of
    the enclosing scope, which is a [BaseException] and is therefore not
    caught by [except Exception]).  The streams, the transform hooks and
    the task group belong to the caller and to [anyio]; their answers are
    inputs of the machine.  The error handler is called synchronously, so
    it is a function of the model.  Everything the coroutine does to the
    outside is recorded as an [Event].

    The lines are embedded twice.  In the first embedding the handler is
    a function of the exception alone, and a session admits the runs in
    which a cancelled scope answers every [await] with the cancellation.
    In the second the handler is one object with a state, shared by the
    two tasks, and a session admits every answer at every [await]; what
    is stated of handlers that may raise, of the two tasks together and
    of what follows the exit of the scope is stated of the second. *)

From Stdlib Require Import List String Lia.
Import ListNotations.

(** ** Streams *)

(** The four streams [mcp_proxy] unpacks from [client_streams] and
    [server_streams]. *)
Inductive Stream : Type :=
| client_read
| client_write
| server_read
| server_write.

(** Levels of the records written to [logger]; [logger.exception] writes
    at [ERROR]. *)
Inductive LogLevel : Type :=
| DEBUG
| WARNING
| ERROR.

(** The two forwarding tasks of a proxy session. *)
Inductive Direction : Type :=
| ClientToServer
| ServerToClient.

(** How the caller leaves the body of [async with mcp_proxy(...)]: the
    body completes, or an exception or a cancellation from outside is
    thrown into the generator at its [yield]. *)
Inductive Exit : Type :=
| BodyCompleted
| BodyInterrupted.

Section ForwardMessages.

(** [SessionMessage] is opaque to the proxy.  [Exception] stands for the
    instances of Python's [Exception]; the only class the code tells
    apart is [anyio.ClosedResourceError].  A [MessageTransformFn] is an
    opaque callable: the machine calls it and awaits what it returned. *)
Context {SessionMessage : Type}.
Context {Exception : Type}.
Context (is_ClosedResourceError : Exception -> bool).
Context {MessageTransformFn : Type}.

(** How a coroutine ends: it returns, an [Exception] leaves it uncaught,
    or the cancellation of its scope unwinds it. *)
Inductive Completion : Type :=
| Returned
| Uncaught (exc : Exception)
| TaskCancelled.

(** [ReadStream = MemoryObjectReceiveStream[SessionMessage | Exception]] *)
Definition Item : Type := (SessionMessage + Exception)%type.

(** [ErrorHandlerFn = Callable[[Exception], None]]: called synchronously;
    [None] when the call returns, [Some exc'] when it raises [exc']. *)
Definition ErrorHandlerFn : Type := Exception -> option Exception.

(** The operations a stream offers.  [Close] stands for [close] and
    [aclose]. *)
Inductive StreamOp : Type :=
| Receive
| Send (m : SessionMessage)
| Close.

(** What the coroutine does to the outside, recorded when it makes the
    call. *)
Inductive Event : Type :=
| Op (s : Stream) (o : StreamOp)
| CallTransform (f : MessageTransformFn) (m : SessionMessage)
| CallOnError (exc : Exception)
| Log (lvl : LogLevel) (direction : string).

(** The three [await]s of [forward_messages]. *)
Inductive Suspended : Type :=
| AtReceive                               (* async for message in read_stream *)
| AtTransform (message : SessionMessage)  (* await transform_fn(message) *)
| AtSend (m : SessionMessage).            (* await write_stream.send(...) *)

(** A task of the task group: scheduled by [start_soon] and not yet run,
    suspended at an [await], or finished. *)
Inductive Task : Type :=
| Created
| Susp (s : Suspended)
| Done (c : Completion).

(** The outcome of an awaited call. *)
Inductive Resumption : Type :=
| Yielded (item : Item)                    (* __anext__ returned an item *)
| StopAsyncIteration                       (* __anext__: end of stream *)
| Transformed (r : option SessionMessage)  (* the hook returned r *)
| SendReturned                             (* send returned *)
| Raised (exc : Exception)                 (* the awaited call raised exc *)
| CancelledError.                          (* the scope was cancelled *)

Definition Step : Type := (list Event * Task)%type.

Definition prepend (ev : list Event) (s : Step) : Step :=
  (ev ++ fst s, snd s).

(** ** [forward_messages] *)

Section Loop.

(** [onerror] is the closure variable of [mcp_proxy]; the other four
    are the arguments of [forward_messages]. *)
Variable onerror : option ErrorHandlerFn.
Variable read_stream : Stream.
Variable write_stream : Stream.
Variable transform_fn : option MessageTransformFn.
Variable direction : string.

(** [if onerror: onerror(exc)] *)
Definition call_onerror (exc : Exception) : list Event * option Exception :=
  match onerror with
  | None => ([], None)
  | Some handler => ([CallOnError exc], handler exc)
  end.

(** The head of [async for]: ask [read_stream] for the next item. *)
Definition next_item : Step := ([Op read_stream Receive], Susp AtReceive).

(** Lines 130-136: the handlers of the outer [try], reached by an
    exception of [__anext__] and by one raised inside the inner
    handler. *)
Definition outer_except (exc : Exception) : Step :=
  if is_ClosedResourceError exc then
    ([Log DEBUG direction], Done Returned)
  else
    let (ev, raised) := call_onerror exc in
    (Log ERROR direction :: ev,
     match raised with
     | None => Done Returned
     | Some exc' => Done (Uncaught exc')
     end).

(** Lines 124-128: [except Exception as exc] of the inner [try]. *)
Definition inner_except (exc : Exception) : Step :=
  let (ev, raised) := call_onerror exc in
  prepend (Log ERROR direction :: ev)
    match raised with
    | None => next_item
    | Some exc' => outer_except exc'
    end.

(** Lines 105-109: the item is an exception. *)
Definition received_exception (message : Exception) : Step :=
  let (ev, raised) := call_onerror message in
  prepend (Log WARNING direction :: ev)
    match raised with
    | None => next_item
    | Some exc' => inner_except exc'
    end.

(** Lines 112-122, up to the first [await]. *)
Definition received_message (message : SessionMessage) : Step :=
  match transform_fn with
  | Some f => ([CallTransform f message], Susp (AtTransform message))
  | None => ([Op write_stream (Send message)], Susp (AtSend message))
  end.

(** The coroutine from one [await] to the next.  [None]: the answer is
    not one the awaited call can give. *)
Definition resume (s : Suspended) (r : Resumption) : option Step :=
  match s, r with
  | _, CancelledError => Some ([], Done TaskCancelled)
  | AtReceive, Yielded (inr message) => Some (received_exception message)
  | AtReceive, Yielded (inl message) => Some (received_message message)
  | AtReceive, StopAsyncIteration => Some ([], Done Returned)
  | AtReceive, Raised exc => Some (outer_except exc)
  | AtTransform _, Transformed None =>
      Some (prepend [Log DEBUG direction] next_item)
  | AtTransform _, Transformed (Some transformed) =>
      Some ([Op write_stream (Send transformed)], Susp (AtSend transformed))
  | AtTransform _, Raised exc => Some (inner_except exc)
  | AtSend _, SendReturned => Some next_item
  | AtSend _, Raised exc => Some (inner_except exc)
  | _, _ => None
  end.

(** The first run of the task: from the call to the first [await]. *)
Definition start : Step := next_item.

Definition then_run (s : Step) (k : Task -> option Step) : option Step :=
  match k (snd s) with
  | Some s' => Some (prepend (fst s) s')
  | None => None
  end.

(** The coroutine resumed along a script of answers. *)
Fixpoint run (t : Task) (script : list Resumption) : option Step :=
  match script with
  | [] => Some ([], t)
  | r :: script' =>
      match t with
      | Susp s =>
          match resume s r with
          | Some st => then_run st (fun t' => run t' script')
          | None => None
          end
      | _ => None
      end
  end.

(** [forward_messages(read_stream, write_stream, transform_fn,
    direction)], called and then resumed along [script]. *)
Definition forward_messages (script : list Resumption) : option Step :=
  then_run start (fun t => run t script).

End Loop.

(** ** Observations on a trace *)

Definition sends (tr : list Event) : list (Stream * SessionMessage) :=
  flat_map (fun e => match e with Op s (Send m) => [(s, m)] | _ => [] end) tr.

Definition handler_calls (tr : list Event) : list Exception :=
  flat_map (fun e => match e with CallOnError exc => [exc] | _ => [] end) tr.

Definition hook_calls (tr : list Event) : list SessionMessage :=
  flat_map (fun e => match e with CallTransform _ m => [m] | _ => [] end) tr.

Definition error_records (tr : list Event) : list string :=
  flat_map (fun e => match e with Log ERROR d => [d] | _ => [] end) tr.

Definition stream_ops (tr : list Event) : list (Stream * StreamOp) :=
  flat_map (fun e => match e with Op s o => [(s, o)] | _ => [] end) tr.

(** ** [mcp_proxy] *)

Section Session.

Variable onerror : option ErrorHandlerFn.
Variable on_client_message : option MessageTransformFn.
Variable on_server_message : option MessageTransformFn.

(** The task group of [mcp_proxy] while the context manager is entered:
    its two tasks, whether its cancel scope has been cancelled, and
    whether the caller is still inside the body. *)
Record Proxy : Type := {
  client_to_server : Task;
  server_to_client : Task;
  cancel_called : bool;
  in_body : bool
}.

Definition task (p : Proxy) (d : Direction) : Task :=
  match d with
  | ClientToServer => client_to_server p
  | ServerToClient => server_to_client p
  end.

Definition set_task (p : Proxy) (d : Direction) (t : Task) : Proxy :=
  match d with
  | ClientToServer =>
      {| client_to_server := t; server_to_client := server_to_client p;
         cancel_called := cancel_called p; in_body := in_body p |}
  | ServerToClient =>
      {| client_to_server := client_to_server p; server_to_client := t;
         cancel_called := cancel_called p; in_body := in_body p |}
  end.

Definition cancel (p : Proxy) : Proxy :=
  {| client_to_server := client_to_server p;
     server_to_client := server_to_client p;
     cancel_called := true; in_body := in_body p |}.

Definition leave (p : Proxy) : Proxy :=
  {| client_to_server := client_to_server p;
     server_to_client := server_to_client p;
     cancel_called := cancel_called p; in_body := false |}.


(** Lines 140-153: the two [tg.start_soon(forward_messages, ...)]. *)
Definition start_task (d : Direction) : Step :=
  match d with
  | ClientToServer =>
      start client_read
  | ServerToClient =>
      start server_read
  end.

Definition resume_task (d : Direction) : Suspended -> Resumption -> option Step :=
  match d with
  | ClientToServer =>
      resume onerror client_read server_write on_client_message
        "client→server"
  | ServerToClient =>
      resume onerror server_read client_write on_server_message
        "server→client"
  end.

(** The session at the [yield] of line 156: both tasks handed to the
    task group, none run yet. *)
Definition mcp_proxy : Proxy :=
  {| client_to_server := Created; server_to_client := Created;
     cancel_called := false; in_body := true |}.

(** What moves a session: the event loop runs a task for the first
    time, resumes a suspended task with the outcome of its [await], or
    the caller leaves the body. *)
Inductive Action : Type :=
| Schedule (d : Direction)
| Resume (d : Direction) (r : Resumption)
| ExitScope (how : Exit).

Definition is_cancellation (r : Resumption) : bool :=
  match r with
  | CancelledError => true
  | _ => false
  end.

(** Modelled from the spec: the cancel scope of the [anyio] task group,
    which is not part of this repository.  Section 5: exiting the scope
    cancels both tasks, and a hook or channel operation in progress is
    abandoned at its suspension point; section 9: the cancellation is
    observed at each suspension point (channel receive, channel send,
    hook invocation).  So once the scope is cancelled the only answer an
    [await] of one of its tasks gets is the cancellation. *)
Definition scope_answers (cancelled : bool) (r : Resumption) : bool :=
  negb cancelled || is_cancellation r.

(** Modelled from the spec: the task group of [anyio], which is not
    part of this repository (section 4.2: both directions are always
    stopped together).  A task has run up to [t]; an exception that
    leaves it reaches the task group, which cancels its scope, here in
    the same move. *)
Definition task_finished (p : Proxy) (d : Direction) (t : Task) : Proxy :=
  match t with
  | Done (Uncaught _) => cancel (set_task p d t)
  | _ => set_task p d t
  end.

(** One move of the session.  Leaving the body runs the [finally] of
    lines 157-161: [tg.cancel_scope.cancel()]. *)
Definition step (p : Proxy) (a : Action) : option (list Event * Proxy) :=
  match a with
  | Schedule d =>
      match task p d with
      | Created =>
          let st := start_task d in Some (fst st, set_task p d (snd st))
      | _ => None
      end
  | Resume d r =>
      match task p d with
      | Susp s =>
          if scope_answers (cancel_called p) r then
            match resume_task d s r with
            | Some st => Some (fst st, task_finished p d (snd st))
            | None => None
            end
          else None
      | _ => None
      end
  | ExitScope _ =>
      if in_body p then Some ([], cancel (leave p)) else None
  end.

Fixpoint exec (p : Proxy) (acts : list Action) : option (list Event * Proxy) :=
  match acts with
  | [] => Some ([], p)
  | a :: acts' =>
      match step p a with
      | Some (ev, p') =>
          match exec p' acts' with
          | Some (ev', p'') => Some (ev ++ ev', p'')
          | None => None
          end
      | None => None
      end
  end.

End Session.

(** ** The lifecycle of the streams *)

Definition Stream_eqb (a b : Stream) : bool :=
  match a, b with
  | client_read, client_read
  | client_write, client_write
  | server_read, server_read
  | server_write, server_write => true
  | _, _ => false
  end.

(** Whether each stream has been closed.  [Close] closes the stream it
    is called on; receiving and sending leave every stream as it is. *)
Definition Lifecycle : Type := Stream -> bool.

Definition apply_op (closed : Lifecycle) (so : Stream * StreamOp) : Lifecycle :=
  match snd so with
  | Close => fun s => if Stream_eqb s (fst so) then true else closed s
  | _ => closed
  end.

Definition closed_after (tr : list Event) (closed : Lifecycle) : Lifecycle :=
  fold_left apply_op (stream_ops tr) closed.

(** The only uses [mcp_proxy] may make of the caller's streams. *)
Definition reads_or_sends (so : Stream * StreamOp) : Prop :=
  match so with
  | (client_read, Receive) | (server_read, Receive) => True
  | (server_write, Send _) | (client_write, Send _) => True
  | _ => False
  end.

(** ** The answers of well-behaved collaborators *)

(** The handler, when there is one, returns from the call on [exc]. *)
Definition handler_returns (onerror : option ErrorHandlerFn) (exc : Exception) : Prop :=
  match onerror with
  | None => True
  | Some handler => handler exc = None
  end.

(** The calls the handler gets for one failure [exc]. *)
Definition reported (onerror : option ErrorHandlerFn) (exc : Exception) : list Exception :=
  match onerror with
  | None => []
  | Some _ => [exc]
  end.

(** The inbound stream yields the messages [ms], one after the other, and
    every send returns. *)
Definition delivers (ms : list SessionMessage) : list Resumption :=
  flat_map (fun m => [Yielded (inl m); SendReturned]) ms.

(** The inbound stream is over: [__anext__] ends the iteration, or
    raises [anyio.ClosedResourceError] because the stream was closed. *)
Definition closure_signal (r : Resumption) : bool :=
  match r with
  | StopAsyncIteration => true
  | Raised exc => is_ClosedResourceError exc
  | _ => false
  end.


End ForwardMessages.

(** ** Accounting for a run *)

Section Accounting.

Context {SessionMessage : Type}.
Context {Exception : Type}.
Context {MessageTransformFn : Type}.

(** The messages the read stream yielded along a script, and the
    messages the hook returned. *)
Definition yielded_messages
    (script : list (Resumption (SessionMessage := SessionMessage)
                      (Exception := Exception)))
    : list SessionMessage :=
  flat_map (fun r => match r with Yielded (inl m) => [m] | _ => [] end) script.

Definition returned_by_hook
    (script : list (Resumption (SessionMessage := SessionMessage)
                      (Exception := Exception)))
    : list SessionMessage :=
  flat_map (fun r => match r with Transformed (Some t) => [t] | _ => [] end)
    script.

(** The exceptions the answers carry: those the read stream yielded in
    place of a message and those an awaited call raised. *)
Definition failures
    (script : list (Resumption (SessionMessage := SessionMessage)
                      (Exception := Exception)))
    : list Exception :=
  flat_map (fun r =>
              match r with
              | Yielded (inr exc) => [exc]
              | Raised exc => [exc]
              | _ => []
              end) script.

(** A hook that is a function [g] of the message: the read stream yields
    [ms], each call of the hook on [m] is answered with [g m], and every
    send returns. *)
Definition answered_by (g : SessionMessage -> option SessionMessage)
    (ms : list SessionMessage)
    : list (Resumption (SessionMessage := SessionMessage)
              (Exception := Exception)) :=
  flat_map (fun m =>
              Yielded (inl m)
              :: match g m with
                 | Some t => [Transformed (Some t); SendReturned]
                 | None => [Transformed None]
                 end) ms.

(** What is left of [ms] after [g]: every message replaced by what [g]
    returns for it, the dropped ones left out. *)
Definition kept (g : SessionMessage -> option SessionMessage)
    (ms : list SessionMessage) : list SessionMessage :=
  flat_map (fun m => match g m with Some t => [t] | None => [] end) ms.

(** The messages sent on the stream [s]. *)
Definition sends_on (s : Stream)
    (tr : list (Event (SessionMessage := SessionMessage)
                  (Exception := Exception)
                  (MessageTransformFn := MessageTransformFn)))
    : list SessionMessage :=
  flat_map (fun e =>
              match e with
              | Op s' (Send m) => if Stream_eqb s s' then [m] else []
              | _ => []
              end) tr.

(** Lines 140-153: the streams, the hook and the label each
    [tg.start_soon(forward_messages, ...)] passes. *)
Definition read_of (d : Direction) : Stream :=
  match d with
  | ClientToServer => client_read
  | ServerToClient => server_read
  end.

Definition write_of (d : Direction) : Stream :=
  match d with
  | ClientToServer => server_write
  | ServerToClient => client_write
  end.

Definition hook_of (on_client_message on_server_message : option MessageTransformFn)
    (d : Direction) : option MessageTransformFn :=
  match d with
  | ClientToServer => on_client_message
  | ServerToClient => on_server_message
  end.

Definition label_of (d : Direction) : string :=
  match d with
  | ClientToServer => "client→server"
  | ServerToClient => "server→client"
  end.

Definition Direction_eqb (a b : Direction) : bool :=
  match a, b with
  | ClientToServer, ClientToServer | ServerToClient, ServerToClient => true
  | _, _ => false
  end.

Definition leaves_body
    (a : Action (SessionMessage := SessionMessage) (Exception := Exception))
    : bool :=
  match a with
  | ExitScope _ => true
  | _ => false
  end.

End Accounting.

(** * The session with its handler as one shared object

    [onerror] is one Python callable, captured by both tasks (line 43,
    called at lines 107, 126 and 135): whether a call of it returns or
    raises may depend on the calls made before, by either task.  In
    this second embedding of the same lines the handler carries a state
    that every call of it updates; the state is threaded through the
    coroutine, and the two tasks of a session share it.

    The answers of the awaited calls are inputs, with no restriction on
    them: a task is resumed with whatever its awaited call gave, also
    after the scope has been cancelled (a call that had completed before
    the cancellation still hands its result to the task), and the task
    group acts on an exception that left a task in a move of its own,
    after the task has ended. *)

Section SharedHandler.

Context {SessionMessage : Type}.
Context {Exception : Type}.
Context (is_ClosedResourceError : Exception -> bool).
Context {MessageTransformFn : Type}.
Context {HandlerState : Type}.

Abbreviation Event := (@Event SessionMessage Exception MessageTransformFn).
Abbreviation Suspended := (@Suspended SessionMessage).
Abbreviation Task := (@Task SessionMessage Exception).
Abbreviation Resumption := (@Resumption SessionMessage Exception).
Abbreviation Step := (@Step SessionMessage Exception MessageTransformFn).
Abbreviation Proxy := (@Proxy SessionMessage Exception).
Abbreviation Action := (@Action SessionMessage Exception).
Abbreviation CallOnError :=
  (@CallOnError SessionMessage Exception MessageTransformFn).
Abbreviation Op := (@Op SessionMessage Exception MessageTransformFn).
Abbreviation Log := (@Log SessionMessage Exception MessageTransformFn).
Abbreviation next_item :=
  (@next_item SessionMessage Exception MessageTransformFn).

(** A call [onerror(exc)] made when the handler is in the state [h]:
    the state the call leaves, and [None] when the call returns,
    [Some exc'] when it raises [exc']. *)
Definition Handler : Type :=
  HandlerState -> Exception -> HandlerState * option Exception.

(** A handler whose answer depends on its argument alone. *)
Definition stateless (f : @ErrorHandlerFn Exception) : Handler :=
  fun h exc => (h, f exc).

(** What the coroutine does up to its next [await], and the state it
    leaves the handler in. *)
Definition StepIn : Type := (Step * HandlerState)%type.

Section LoopIn.

Variable onerror : option Handler.
Variable read_stream : Stream.
Variable write_stream : Stream.
Variable transform_fn : option MessageTransformFn.
Variable direction : string.

(** [if onerror: onerror(exc)] *)
Definition call_onerror_in (h : HandlerState) (exc : Exception)
    : list Event * option Exception * HandlerState :=
  match onerror with
  | None => ([], None, h)
  | Some handler =>
      let (h', raised) := handler h exc in ([CallOnError exc], raised, h')
  end.

(** Lines 130-136: the handlers of the outer [try]. *)
Definition outer_except_in (h : HandlerState) (exc : Exception) : StepIn :=
  if is_ClosedResourceError exc then
    (([Log DEBUG direction], Done Returned), h)
  else
    let '(ev, raised, h') := call_onerror_in h exc in
    ((Log ERROR direction :: ev,
      match raised with
      | None => Done Returned
      | Some exc' => Done (Uncaught exc')
      end), h').

(** Lines 124-128: [except Exception as exc] of the inner [try]. *)
Definition inner_except_in (h : HandlerState) (exc : Exception) : StepIn :=
  let '(ev, raised, h') := call_onerror_in h exc in
  let (st, h'') :=
    match raised with
    | None => (next_item read_stream, h')
    | Some exc' => outer_except_in h' exc'
    end in
  (prepend (Log ERROR direction :: ev) st, h'').

(** Lines 105-109: the item is an exception. *)
Definition received_exception_in (h : HandlerState) (message : Exception)
    : StepIn :=
  let '(ev, raised, h') := call_onerror_in h message in
  let (st, h'') :=
    match raised with
    | None => (next_item read_stream, h')
    | Some exc' => inner_except_in h' exc'
    end in
  (prepend (Log WARNING direction :: ev) st, h'').

(** The coroutine from one [await] to the next, the handler being in
    the state [h] when the task is resumed.  [None]: the answer is not
    one the awaited call can give. *)
Definition resume_in_state (s : Suspended) (r : Resumption)
    (h : HandlerState) : option StepIn :=
  match s, r with
  | _, CancelledError => Some (([], Done TaskCancelled), h)
  | AtReceive, Yielded (inr message) => Some (received_exception_in h message)
  | AtReceive, Yielded (inl message) =>
      Some (received_message write_stream transform_fn message, h)
  | AtReceive, StopAsyncIteration => Some (([], Done Returned), h)
  | AtReceive, Raised exc => Some (outer_except_in h exc)
  | AtTransform _, Transformed None =>
      Some (prepend [Log DEBUG direction] (next_item read_stream), h)
  | AtTransform _, Transformed (Some transformed) =>
      Some (([Op write_stream (Send transformed)], Susp (AtSend transformed)),
            h)
  | AtTransform _, Raised exc => Some (inner_except_in h exc)
  | AtSend _, SendReturned => Some (next_item read_stream, h)
  | AtSend _, Raised exc => Some (inner_except_in h exc)
  | _, _ => None
  end.

(** The coroutine resumed along a script of answers. *)
Fixpoint run_in_state (t : Task) (script : list Resumption)
    (h : HandlerState) : option StepIn :=
  match script with
  | [] => Some (([], t), h)
  | r :: script' =>
      match t with
      | Susp s =>
          match resume_in_state s r h with
          | Some (st, h') =>
              match run_in_state (snd st) script' h' with
              | Some (st', h'') => Some (prepend (fst st) st', h'')
              | None => None
              end
          | None => None
          end
      | _ => None
      end
  end.

(** [forward_messages(read_stream, write_stream, transform_fn,
    direction)], called and then resumed along [script], the handler
    being in the state [h] at the call. *)
Definition forward_messages_in_state (script : list Resumption)
    (h : HandlerState) : option StepIn :=
  match run_in_state (Susp AtReceive) script h with
  | Some (st, h') => Some (prepend [Op read_stream Receive] st, h')
  | None => None
  end.

End LoopIn.

(** The call of the handler on [exc] in the state [h] returns, and
    leaves the state [h'] (with no handler no call is made). *)
Definition returns_in (onerror : option Handler) (h : HandlerState)
    (exc : Exception) (h' : HandlerState) : Prop :=
  match onerror with
  | None => h' = h
  | Some handler => handler h exc = (h', None)
  end.

(** The calls the handler gets for one failure [exc]. *)
Definition reported_to (onerror : option Handler) (exc : Exception)
    : list Exception :=
  match onerror with
  | None => []
  | Some _ => [exc]
  end.

(** What the answers of a script make a loop pass to [send]: each
    message the read stream yielded when there is no hook, each message
    the hook returned when there is one. *)
Definition forwarded (transform_fn : option MessageTransformFn)
    (script : list Resumption) : list SessionMessage :=
  flat_map (fun r =>
              match r with
              | Yielded (inl m) =>
                  match transform_fn with
                  | None => [m]
                  | Some _ => []
                  end
              | Transformed (Some t) => [t]
              | _ => []
              end) script.

(** ** [mcp_proxy] *)

Section SessionIn.

Variable onerror : option Handler.
Variable on_client_message : option MessageTransformFn.
Variable on_server_message : option MessageTransformFn.

(** Lines 140-153: the two [tg.start_soon(forward_messages, ...)]. *)
Definition resume_task_in_state (d : Direction)
    : Suspended -> Resumption -> HandlerState -> option StepIn :=
  match d with
  | ClientToServer =>
      resume_in_state onerror client_read server_write on_client_message
        "client→server"
  | ServerToClient =>
      resume_in_state onerror server_read client_write on_server_message
        "server→client"
  end.

(** What moves the session: the moves of [Action], and the task group
    acting on an exception that left one of its tasks. *)
Inductive Move : Type :=
| Act (a : Action)
| GroupCancels.

Definition ended_by_exception (t : Task) : bool :=
  match t with
  | Done (Uncaught _) => true
  | _ => false
  end.

(** Modelled from the spec: the task group of [anyio], which is not
    part of this repository.  Section 4.2: both directions are always
    stopped together; section 9: the scope is a structured-concurrency
    task group.  So when an exception has left one of the two tasks the
    group may cancel its scope, which reaches the other task. *)
Definition group_cancels (p : Proxy) : option Proxy :=
  if orb (ended_by_exception (task p ClientToServer))
         (ended_by_exception (task p ServerToClient))
  then Some (cancel p)
  else None.

(** One move of the session, the handler being in the state [h].
    Leaving the body runs the [finally] of lines 157-161:
    [tg.cancel_scope.cancel()]. *)
Definition advance (p : Proxy) (h : HandlerState) (m : Move)
    : option (list Event * Proxy * HandlerState) :=
  match m with
  | Act (Schedule d) =>
      match task p d with
      | Created =>
          let st := start_task d in Some (fst st, set_task p d (snd st), h)
      | _ => None
      end
  | Act (Resume d r) =>
      match task p d with
      | Susp s =>
          match resume_task_in_state d s r h with
          | Some (st, h') => Some (fst st, set_task p d (snd st), h')
          | None => None
          end
      | _ => None
      end
  | Act (ExitScope _) =>
      if in_body p then Some ([], cancel (leave p), h) else None
  | GroupCancels =>
      match group_cancels p with
      | Some p' => Some ([], p', h)
      | None => None
      end
  end.

Fixpoint advance_all (p : Proxy) (h : HandlerState) (ms : list Move)
    : option (list Event * Proxy * HandlerState) :=
  match ms with
  | [] => Some ([], p, h)
  | m :: ms' =>
      match advance p h m with
      | Some (ev, p', h') =>
          match advance_all p' h' ms' with
          | Some (ev', p'', h'') => Some (ev ++ ev', p'', h'')
          | None => None
          end
      | None => None
      end
  end.

End SessionIn.

(** The answers given to the task of direction [d] along moves. *)
Definition answers_in (d : Direction) (ms : list Move) : list Resumption :=
  flat_map (fun m =>
              match m with
              | Act (Resume d' r) => if Direction_eqb d d' then [r] else []
              | _ => []
              end) ms.

(** The moves of the event loop and of the caller among [ms]. *)
Definition actions_of (ms : list Move) : list Action :=
  flat_map (fun m => match m with Act a => [a] | GroupCancels => [] end) ms.





End SharedHandler.

(** ** A concrete instance, for the scenarios *)

(** Three exception classes: the two [anyio] raises on a stream that is
    closed or whose other end is gone, and one that is neither. *)
Inductive PyException : Type :=
| ClosedResourceError
| BrokenResourceError
| ValueError.

(** [isinstance(exc, anyio.ClosedResourceError)] *)
Definition isinstance_ClosedResourceError (exc : PyException) : bool :=
  match exc with
  | ClosedResourceError => true
  | _ => false
  end.

(** The handler of the docstring's example: it logs and returns. *)
Definition log_error : ErrorHandlerFn (Exception := PyException) :=
  fun _ => None.

(** A handler that raises what it is given. *)
Definition reraise : ErrorHandlerFn (Exception := PyException) :=
  fun error => Some error.

(** The two calls of [forward_messages] that [mcp_proxy] makes, in a
    session whose messages are numbers and whose hooks are named by a
    string. *)
Definition client_to_server_loop (onerror : option ErrorHandlerFn)
    (on_client_message : option string)
    (script : list (Resumption (SessionMessage := nat)))
    : option (Step (MessageTransformFn := string)) :=
  forward_messages isinstance_ClosedResourceError onerror
    client_read server_write on_client_message "client→server" script.

Definition server_to_client_loop (onerror : option ErrorHandlerFn)
    (on_server_message : option string)
    (script : list (Resumption (SessionMessage := nat)))
    : option (Step (MessageTransformFn := string)) :=
  forward_messages isinstance_ClosedResourceError onerror
    server_read client_write on_server_message "server→client" script.

(** The events of such a session. *)
Abbreviation ScenarioEvent := (@Event nat PyException string).

(** A session while the client-to-server task is in a send and the
    server-to-client task waits for an item; the same after the caller
    has left the body; and with both tasks ended by the cancellation. *)
Definition in_flight : Proxy (SessionMessage := nat) (Exception := PyException) :=
  {| client_to_server := Susp (AtSend 1); server_to_client := Susp AtReceive;
     cancel_called := false; in_body := true |}.


Definition both_cancelled : Proxy (SessionMessage := nat) (Exception := PyException) :=
  {| client_to_server := Done TaskCancelled;
     server_to_client := Done TaskCancelled;
     cancel_called := true; in_body := false |}.

(** A run of the client-to-server loop with no hook that meets a failing
    send, a transport error and the cancellation; one with a hook that
    rewrites, drops and fails; and their traces. *)
Definition mixed_script : list (Resumption (SessionMessage := nat)) :=
  [Yielded (inl 1); Raised BrokenResourceError; Yielded (inr ValueError);
   Yielded (inl 2); SendReturned; CancelledError].

Definition mixed_trace : list ScenarioEvent :=
  [Op client_read Receive; Op server_write (Send 1);
   Log ERROR "client→server"; CallOnError BrokenResourceError;
   Op client_read Receive; Log WARNING "client→server";
   CallOnError ValueError; Op client_read Receive;
   Op server_write (Send 2); Op client_read Receive].

Definition hooked_script : list (Resumption (SessionMessage := nat)) :=
  [Yielded (inl 1); Transformed (Some 7); SendReturned;
   Yielded (inl 2); Transformed None;
   Yielded (inl 3); Raised ValueError; StopAsyncIteration].

Definition hooked_trace : list ScenarioEvent :=
  [Op client_read Receive; CallTransform "h"%string 1;
   Op server_write (Send 7); Op client_read Receive;
   CallTransform "h"%string 2; Log DEBUG "client→server";
   Op client_read Receive; CallTransform "h"%string 3;
   Log ERROR "client→server"; CallOnError ValueError;
   Op client_read Receive].

(** Further states of a session: both tasks waiting for an item; both
    in a send; the client-to-server task returned before the other was
    started. *)
Definition both_receiving : Proxy (SessionMessage := nat) (Exception := PyException) :=
  {| client_to_server := Susp AtReceive; server_to_client := Susp AtReceive;
     cancel_called := false; in_body := true |}.

Definition both_sending : Proxy (SessionMessage := nat) (Exception := PyException) :=
  {| client_to_server := Susp (AtSend 1); server_to_client := Susp (AtSend 5);
     cancel_called := false; in_body := true |}.

Definition client_returned : Proxy (SessionMessage := nat) (Exception := PyException) :=
  {| client_to_server := Done Returned; server_to_client := Created;
     cancel_called := false; in_body := true |}.

(** ** The same with a shared handler *)

(** The two handlers above have no state.  A third returns from its
    first call and raises what it is given on every later one; its
    state is the number of calls made of it so far. *)
Definition log_error_in : Handler (Exception := PyException) (HandlerState := unit) :=
  stateless log_error.

Definition reraise_in : Handler (Exception := PyException) (HandlerState := unit) :=
  stateless reraise.

Definition returns_once : Handler (Exception := PyException) (HandlerState := nat) :=
  fun calls error =>
    (S calls, match calls with 0 => None | S _ => Some error end).

(** The client-to-server call of [forward_messages], and a session with
    no hooks, with the handler of [mcp_proxy] in a given state. *)
Definition client_to_server_loop_in {HandlerState : Type}
    (onerror : option (Handler (HandlerState := HandlerState)))
    (on_client_message : option string)
    (script : list (Resumption (SessionMessage := nat)))
    (h : HandlerState)
    : option (Step (MessageTransformFn := string) * HandlerState) :=
  forward_messages_in_state isinstance_ClosedResourceError onerror
    client_read server_write on_client_message "client→server" script h.

Definition session_in {HandlerState : Type}
    (onerror : option (Handler (HandlerState := HandlerState)))
    (p : Proxy (SessionMessage := nat) (Exception := PyException))
    (h : HandlerState) (ms : list Move)
    : option (list ScenarioEvent * Proxy * HandlerState) :=
  advance_all isinstance_ClosedResourceError onerror None None p h ms.





Definition two_directions
    : list (Move (SessionMessage := nat) (Exception := PyException)) :=
  [Act (Schedule ClientToServer); Act (Schedule ServerToClient);
   Act (Resume ClientToServer (Yielded (inl 1)));
   Act (Resume ServerToClient (Yielded (inr ValueError)));
   Act (Resume ClientToServer SendReturned);
   Act (Resume ClientToServer (Yielded (inl 2)))].

(** Moves in which each task meets a failure. *)
Definition two_failures
    : list (Move (SessionMessage := nat) (Exception := PyException)) :=
  [Act (Resume ServerToClient (Yielded (inr ValueError)));
   Act (Resume ClientToServer (Raised BrokenResourceError))].

Definition two_directions_trace : list ScenarioEvent :=
  [Op client_read Receive; Op server_read Receive;
   Op server_write (Send 1); Log WARNING "server→client";
   CallOnError ValueError; Log ERROR "server→client";
   CallOnError ValueError; Log ERROR "server→client";
   CallOnError ValueError; Op client_read Receive;
   Op server_write (Send 2)].

(** * The example server ([mcp_simple_proxy.server]) *)

Section SimpleProxy.

Context {SessionMessage : Type}.
Context {Exception : Type}.

(** What the inspectors read of [msg.message.root]: which of the
    attributes [method], [result], [error] and [id] it has, with
    [method] and [id] as they print in an f-string. *)
Record Root : Type := {
  method : option string;
  has_result : bool;
  has_error : bool;
  id : option string
}.

(** [msg.message.root] *)
Context (root_of : SessionMessage -> Root).

(** [getattr(root, 'id', 'N/A')] *)
Definition getattr_id (root : Root) : string :=
  match id root with
  | Some i => i
  | None => "N/A"
  end.

(** [inspect_client_message]: the records it writes with [logger.info],
    and what it returns. *)
Definition inspect_client_message (msg : SessionMessage)
    : list string * option SessionMessage :=
  let root := root_of msg in
  (match method root with
   | Some m =>
       [("Client → Server: " ++ m ++ " (id: " ++ getattr_id root ++ ")")%string]
   | None =>
       if has_result root then
         [("Client → Server: Response (id: " ++ getattr_id root ++ ")")%string]
       else if has_error root then
         [("Client → Server: Error (id: " ++ getattr_id root ++ ")")%string]
       else []
   end,
   Some msg).

(** [inspect_server_message] *)
Definition inspect_server_message (msg : SessionMessage)
    : list string * option SessionMessage :=
  let root := root_of msg in
  (match method root with
   | Some m =>
       [("Server → Client: " ++ m ++ " (id: " ++ getattr_id root ++ ")")%string]
   | None =>
       if has_result root then
         [("Server → Client: Response (id: " ++ getattr_id root ++ ")")%string]
       else if has_error root then
         [("Server → Client: Error (id: " ++ getattr_id root ++ ")")%string]
       else []
   end,
   Some msg).

(** [handle_error]: it writes the error to the log and returns. *)
Definition handle_error : ErrorHandlerFn (Exception := Exception) :=
  fun error => None.

(** The hooks are the two inspectors themselves. *)
Definition Inspector : Type :=
  SessionMessage -> list string * option SessionMessage.

(** Lines 86-92 of [run_proxy]: the hooks [mcp_proxy] is given, by
    [--inspect/--no-inspect]. *)
Definition on_client_message_for (inspect : bool) : option Inspector :=
  if inspect then Some inspect_client_message else None.

Definition on_server_message_for (inspect : bool) : option Inspector :=
  if inspect then Some inspect_server_message else None.

(** The answers a forwarding task of the example gets when its read
    stream yields [ms], every send returns, and a hook, when there is
    one, returns what the inspector returns. *)
Definition inspected (hook : option Inspector) (ms : list SessionMessage)
    : list (Resumption (SessionMessage := SessionMessage)
              (Exception := Exception)) :=
  match hook with
  | Some f => answered_by (fun m => snd (f m)) ms
  | None => delivers ms
  end.

End SimpleProxy.

(** * Properties *)

Section Properties.

Context {SessionMessage : Type}.
Context {Exception : Type}.
Context (is_ClosedResourceError : Exception -> bool).
Context {MessageTransformFn : Type}.

Abbreviation StreamOp := (@StreamOp SessionMessage).
Abbreviation Event := (@Event SessionMessage Exception MessageTransformFn).
Abbreviation Suspended := (@Suspended SessionMessage).
Abbreviation Task := (@Task SessionMessage Exception).
Abbreviation Resumption := (@Resumption SessionMessage Exception).
Abbreviation Step := (@Step SessionMessage Exception MessageTransformFn).
Abbreviation ErrorHandlerFn := (@ErrorHandlerFn Exception).
Abbreviation Proxy := (@Proxy SessionMessage Exception).
Abbreviation Action := (@Action SessionMessage Exception).
Abbreviation call_onerror :=
  (@call_onerror SessionMessage Exception MessageTransformFn).
Abbreviation CallOnError :=
  (@CallOnError SessionMessage Exception MessageTransformFn).
Abbreviation Op := (@Op SessionMessage Exception MessageTransformFn).
Abbreviation CallTransform :=
  (@CallTransform SessionMessage Exception MessageTransformFn).
Abbreviation Log := (@Log SessionMessage Exception MessageTransformFn).

(** ** Observations and concatenation *)

Lemma sends_app (tr1 tr2 : list Event) :
  sends (tr1 ++ tr2) = sends tr1 ++ sends tr2.
Proof. apply flat_map_app. Qed.

Lemma handler_calls_app (tr1 tr2 : list Event) :
  handler_calls (tr1 ++ tr2) = handler_calls tr1 ++ handler_calls tr2.
Proof. apply flat_map_app. Qed.

Lemma stream_ops_app (tr1 tr2 : list Event) :
  stream_ops (tr1 ++ tr2) = stream_ops tr1 ++ stream_ops tr2.
Proof. apply flat_map_app. Qed.

Lemma prepend_nil (st : Step) : prepend [] st = st.
Proof. destruct st; reflexivity. Qed.

(** ** The loop along a script *)

Section LoopFacts.

Variable onerror : option ErrorHandlerFn.
Variable read_stream : Stream.
Variable write_stream : Stream.
Variable transform_fn : option MessageTransformFn.
Variable direction : string.

Abbreviation run_loop :=
  (run is_ClosedResourceError onerror read_stream write_stream transform_fn
     direction).
Abbreviation forward :=
  (forward_messages is_ClosedResourceError onerror read_stream write_stream
     transform_fn direction).

Lemma run_cons (s : Suspended) (r : Resumption) (script : list Resumption) :
  run_loop (Susp s) (r :: script) =
  match
    resume is_ClosedResourceError onerror read_stream write_stream transform_fn
      direction s r
  with
  | Some st => then_run st (fun t => run_loop t script)
  | None => None
  end.
Proof. reflexivity. Qed.

Lemma run_app (t : Task) (s1 s2 : list Resumption) :
  run_loop t (s1 ++ s2) =
  match run_loop t s1 with
  | Some st => then_run st (fun t' => run_loop t' s2)
  | None => None
  end.
Proof.
  revert t; induction s1 as [|r s1 IH]; intros t.
  - simpl. unfold then_run; simpl.
    destruct (run_loop t s2) as [st|]; [now rewrite prepend_nil | reflexivity].
  - destruct t as [|s|c]; try reflexivity.
    rewrite <- app_comm_cons, !run_cons.
    destruct (resume _ _ _ _ _ _ s r) as [[ev t']|]; [|reflexivity].
    unfold then_run; simpl. rewrite IH.
    destruct (run_loop t' s1) as [[ev1 t1]|]; [|reflexivity].
    unfold then_run; simpl.
    destruct (run_loop t1 s2) as [[ev2 t2]|]; [|reflexivity].
    unfold prepend; simpl. now rewrite app_assoc.
Qed.

Lemma forward_app (s1 s2 : list Resumption) :
  forward (s1 ++ s2) =
  match forward s1 with
  | Some st => then_run st (fun t => run_loop t s2)
  | None => None
  end.
Proof.
  unfold forward_messages, then_run; simpl.
  rewrite run_app.
  destruct (run_loop (Susp AtReceive) s1) as [[ev1 t1]|]; [|reflexivity].
  unfold then_run; simpl.
  destruct (run_loop t1 s2) as [[ev2 t2]|]; reflexivity.
Qed.

(** Answers [seg] that bring the loop back to the head of [async for]
    can be put between any two parts of a run; they add their own
    events and change nothing else. *)
Lemma splice (pre seg post : list Resumption) (s : Suspended)
    (tr1 ev tr2 : list Event) (t : Task) :
  forward pre = Some (tr1, Susp s) ->
  run_loop (Susp s) seg = Some (ev, Susp AtReceive) ->
  run_loop (Susp AtReceive) post = Some (tr2, t) ->
  forward (pre ++ seg ++ post) = Some (tr1 ++ ev ++ tr2, t).
Proof.
  intros Hpre Hseg Hpost.
  rewrite forward_app, Hpre. unfold then_run; simpl.
  rewrite run_app, Hseg. unfold then_run; simpl.
  now rewrite Hpost.
Qed.

Lemma call_onerror_returns (exc : Exception) :
  handler_returns onerror exc ->
  call_onerror onerror exc =
  (map CallOnError (reported onerror exc), None).
Proof.
  unfold handler_returns, call_onerror, reported.
  destruct onerror as [handler|]; [intros ->|]; reflexivity.
Qed.

(** The inner handler, with a handler that returns: report, go on. *)
Lemma inner_except_returns (exc : Exception) :
  handler_returns onerror exc ->
  inner_except is_ClosedResourceError onerror read_stream direction exc =
  (Log ERROR direction :: map CallOnError (reported onerror exc)
     ++ [Op read_stream Receive],
   Susp AtReceive).
Proof.
  intros H. unfold inner_except. rewrite (call_onerror_returns exc H).
  reflexivity.
Qed.

End LoopFacts.

(** ** One direction *)

Section OneDirection.

Variable onerror : option ErrorHandlerFn.
Variable read_stream : Stream.
Variable write_stream : Stream.
Variable direction : string.

Abbreviation run_with tf :=
  (run is_ClosedResourceError onerror read_stream write_stream tf direction).
Abbreviation forward_with tf :=
  (forward_messages is_ClosedResourceError onerror read_stream write_stream tf
     direction).
Abbreviation no_transform := (@None MessageTransformFn).

Lemma run_delivers (ms : list SessionMessage) :
  run_with no_transform (Susp AtReceive) (delivers ms) =
  Some (flat_map (fun m => [Op write_stream (Send m); Op read_stream Receive]) ms,
        Susp AtReceive).
Proof.
  unfold delivers. induction ms as [|m ms IH]; [reflexivity|].
  cbn [flat_map app]. rewrite run_cons. cbn [resume received_message].
  unfold then_run; cbn [fst snd]. rewrite run_cons. cbn [resume].
  unfold then_run, next_item; cbn [fst snd]. rewrite IH. reflexivity.
Qed.

Lemma sends_forwarded (ms : list SessionMessage) :
  sends (flat_map (fun m => [Op write_stream (Send m); Op read_stream Receive]) ms)
  = map (pair write_stream) ms.
Proof. induction ms as [|m ms IH]; [reflexivity|]. simpl. now rewrite IH. Qed.

Lemma handler_calls_forwarded (ms : list SessionMessage) :
  handler_calls
    (flat_map (fun m => [Op write_stream (Send m); Op read_stream Receive]) ms)
  = [].
Proof. induction ms as [|m ms IH]; [reflexivity|]. simpl. exact IH. Qed.

(** C1, order preservation.  With no transform hook, when the inbound
    stream delivers the messages [ms] and every send returns: the loop
    has sent on its write stream exactly [ms], in that order, it has not
    called the error handler, and it is waiting for the next item; if the
    stream then ends, the coroutine returns with nothing more done. *)
Theorem order_preservation (ms : list SessionMessage) :
  exists tr,
    forward_with no_transform (delivers ms) = Some (tr, Susp AtReceive)
    /\ forward_with no_transform (delivers ms ++ [StopAsyncIteration])
       = Some (tr, Done Returned)
    /\ sends tr = map (pair write_stream) ms
    /\ handler_calls tr = [].
Proof.
  assert (Hrun : forward_with no_transform (delivers ms)
                 = Some (Op read_stream Receive
                           :: flat_map (fun m => [Op write_stream (Send m);
                                                  Op read_stream Receive]) ms,
                         Susp AtReceive)).
  { unfold forward_messages, then_run, start, next_item; cbn [fst snd].
    now rewrite run_delivers. }
  eexists. split; [exact Hrun|split; [|split]].
  - rewrite forward_app, Hrun. cbn [run].
    unfold then_run, prepend, resume; cbn [fst snd]. now rewrite !app_nil_r.
  - cbn. apply sends_forwarded.
  - cbn. apply handler_calls_forwarded.
Qed.

(** C3, drop semantics.  A message [M] for which the configured hook
    returns [None]: the hook has been called once with [M], nothing is
    sent, the error handler is not called and nothing is logged as an
    error; the loop goes on with the next item. *)
Theorem dropped_message_not_forwarded (f : MessageTransformFn)
    (M : SessionMessage) (pre post : list Resumption)
    (tr1 tr2 : list Event) (t : Task) :
  forward_with (Some f) pre = Some (tr1, Susp AtReceive) ->
  run_with (Some f) (Susp AtReceive) post = Some (tr2, t) ->
  exists ev,
    forward_with (Some f) (pre ++ Yielded (inl M) :: Transformed None :: post)
      = Some (tr1 ++ ev ++ tr2, t)
    /\ sends ev = []
    /\ handler_calls ev = []
    /\ error_records ev = []
    /\ hook_calls ev = [M].
Proof.
  intros Hpre Hpost.
  exists [CallTransform f M; Log DEBUG direction; Op read_stream Receive].
  split; [|repeat split].
  apply (splice _ _ _ _ _ pre [Yielded (inl M); Transformed None] post AtReceive);
    trivial.
Qed.

(** C4, replacement semantics.  A message [M] for which the configured
    hook returns a message [M']: the one send the loop makes for the
    item is of [M'] on its write stream, and it is then awaiting that
    send. *)
Theorem transformed_message_replaces (f : MessageTransformFn)
    (M M' : SessionMessage) (pre : list Resumption) (tr1 : list Event) :
  forward_with (Some f) pre = Some (tr1, Susp AtReceive) ->
  exists ev,
    forward_with (Some f) (pre ++ [Yielded (inl M); Transformed (Some M')])
      = Some (tr1 ++ ev, Susp (AtSend M'))
    /\ sends ev = [(write_stream, M')]
    /\ hook_calls ev = [M].
Proof.
  intros Hpre.
  exists [CallTransform f M; Op write_stream (Send M')].
  split; [|split; reflexivity].
  rewrite forward_app, Hpre. reflexivity.
Qed.

(** With a handler that always returns, the only answers that end the
    coroutine are the cancellation and, at [async for], the end of the
    stream or an exception of [__anext__]: no failure of a hook or of a
    send does. *)
Lemma loop_ends_only_at_receive (transform_fn : option MessageTransformFn)
    (s : Suspended) (r : Resumption) (ev : list Event) (c : Completion) :
  (forall exc, handler_returns onerror exc) ->
  resume is_ClosedResourceError onerror read_stream write_stream transform_fn
    direction s r = Some (ev, Done c) ->
  (r = CancelledError /\ c = TaskCancelled)
  \/ (s = AtReceive /\ c = Returned
      /\ (r = StopAsyncIteration \/ exists exc, r = Raised exc)).
Proof.
  intros Hret H.
  destruct s as [|msg|msg], r as [[message|message]| |[transformed|]| |exc|];
    cbn in H; try discriminate H;
    try (left; injection H as _ <-; split; reflexivity);
    try (destruct transform_fn; discriminate H).
  - unfold received_exception in H.
    rewrite (call_onerror_returns _ _ (Hret message)) in H. discriminate H.
  - right. injection H as _ <-. auto.
  - right. unfold outer_except in H.
    destruct (is_ClosedResourceError exc).
    + injection H as _ <-. eauto.
    + rewrite (call_onerror_returns _ _ (Hret exc)) in H.
      injection H as _ <-. eauto.
  - rewrite (inner_except_returns _ _ _ _ (Hret exc)) in H. discriminate H.
  - rewrite (inner_except_returns _ _ _ _ (Hret exc)) in H. discriminate H.
Qed.

(** C7, stream closure.  When the inbound stream signals that it is
    over (the iteration ends, or [__anext__] raises
    [ClosedResourceError]), the coroutine returns: it does not call
    the error handler, logs nothing as an error and sends nothing. *)
Theorem stream_closure_silent (transform_fn : option MessageTransformFn)
    (r : Resumption) (pre : list Resumption) (tr1 : list Event) :
  closure_signal is_ClosedResourceError r = true ->
  forward_with transform_fn pre = Some (tr1, Susp AtReceive) ->
  exists ev,
    forward_with transform_fn (pre ++ [r]) = Some (tr1 ++ ev, Done Returned)
    /\ handler_calls ev = []
    /\ error_records ev = []
    /\ sends ev = [].
Proof.
  intros Hsig Hpre.
  destruct r as [item| |o| |exc|]; try discriminate Hsig.
  - exists []. split; [|repeat split].
    rewrite forward_app, Hpre. reflexivity.
  - cbn in Hsig. exists [Log DEBUG direction]. split; [|repeat split].
    rewrite forward_app, Hpre. unfold then_run; cbn [fst snd].
    rewrite run_cons. cbn [resume]. unfold outer_except. rewrite Hsig.
    reflexivity.
Qed.

End OneDirection.

(** ** The session *)


(** A loop touches its two streams only to receive from the one and to
    send on the other. *)
Lemma resume_stream_ops (onerror : option ErrorHandlerFn)
    (read_stream write_stream : Stream)
    (transform_fn : option MessageTransformFn) (direction : string)
    (s : Suspended) (r : Resumption) (st : Step) :
  resume is_ClosedResourceError onerror read_stream write_stream transform_fn
    direction s r = Some st ->
  Forall (fun so => so = (read_stream, Receive)
                    \/ exists m, so = (write_stream, Send m))
         (stream_ops (fst st)).
Proof.
  intros H.
  destruct s as [|msg|msg], r as [[message|message]| |[transformed|]| |exc|];
    cbn in H; try discriminate H;
    try (destruct transform_fn); injection H as <-;
    unfold received_exception, inner_except, outer_except, call_onerror,
      prepend, next_item;
    destruct onerror as [handler|];
    repeat match goal with
      | |- context [handler ?x] => destruct (handler x)
      | |- context [is_ClosedResourceError ?x] =>
          destruct (is_ClosedResourceError x)
      end;
    cbn;
    repeat (apply Forall_cons;
            [first [left; reflexivity | right; eexists; reflexivity]|]);
    apply Forall_nil.
Qed.

Lemma fold_apply_op_reads_or_sends (ops : list (Stream * StreamOp))
    (closed : Lifecycle) :
  Forall reads_or_sends ops -> fold_left apply_op ops closed = closed.
Proof.
  induction 1 as [|[s o] ops Hso _ IH]; [reflexivity|].
  cbn [fold_left]. destruct o; [exact IH|exact IH|].
  destruct s; contradiction.
Qed.

Section SessionFacts.

Variable onerror : option ErrorHandlerFn.
Variable on_client_message : option MessageTransformFn.
Variable on_server_message : option MessageTransformFn.

Abbreviation step_proxy :=
  (step is_ClosedResourceError onerror on_client_message on_server_message).
Abbreviation exec_proxy :=
  (exec is_ClosedResourceError onerror on_client_message on_server_message).
Abbreviation resume_in :=
  (resume_task is_ClosedResourceError onerror on_client_message
     on_server_message).

Lemma exec_cons (p : Proxy) (a : Action) (acts : list Action) :
  exec_proxy p (a :: acts) =
  match step_proxy p a with
  | Some (ev, p') =>
      match exec_proxy p' acts with
      | Some (ev', p'') => Some (ev ++ ev', p'')
      | None => None
      end
  | None => None
  end.
Proof. reflexivity. Qed.



Lemma step_stream_ops (p p' : Proxy) (a : Action) (ev : list Event) :
  step_proxy p a = Some (ev, p') ->
  Forall reads_or_sends (stream_ops ev).
Proof.
  destruct a as [d|d r|how]; cbn [step].
  - destruct (task p d); try discriminate. intros [= <- _].
    destruct d; repeat constructor.
  - destruct (task p d) as [|s|c]; try discriminate.
    destruct (scope_answers (cancel_called p) r); try discriminate.
    destruct (resume_in d s r) as [st|] eqn:Hres; try discriminate.
    intros [= <- _].
    destruct d; apply resume_stream_ops in Hres;
      (eapply Forall_impl; [|exact Hres]);
      intros so [ -> | [m -> ] ]; exact I.
  - destruct (in_body p); try discriminate. intros [= <- _]. constructor.
Qed.

Lemma exec_stream_ops (acts : list Action) (p p' : Proxy) (tr : list Event) :
  exec_proxy p acts = Some (tr, p') ->
  Forall reads_or_sends (stream_ops tr).
Proof.
  revert p tr; induction acts as [|a acts IH]; intros p tr.
  - intros [= <- _]. constructor.
  - rewrite exec_cons.
    destruct (step_proxy p a) as [[ev p1]|] eqn:Hstep; try discriminate.
    destruct (exec_proxy p1 acts) as [[ev' p2]|] eqn:Hexec; try discriminate.
    intros [= <- <-]. rewrite stream_ops_app. apply Forall_app. split.
    + exact (step_stream_ops _ _ _ _ Hstep).
    + exact (IH _ _ Hexec).
Qed.

(** C9, the streams stay the caller's.  Over a whole session, from its
    entry through any moves, the exit and what follows it, the only
    operations made on the four streams are receiving from
    [client_read] and [server_read] and sending on [server_write] and
    [client_write]; no stream is closed, so each is open or closed
    afterwards exactly as it was before. *)
Theorem streams_never_closed (acts : list Action) (tr : list Event)
    (p : Proxy) :
  exec_proxy mcp_proxy acts = Some (tr, p) ->
  Forall reads_or_sends (stream_ops tr)
  /\ (forall s, ~ In (s, Close) (stream_ops tr))
  /\ (forall closed, closed_after tr closed = closed).
Proof.
  intros Hexec. pose proof (exec_stream_ops _ _ _ _ Hexec) as Hops.
  split; [exact Hops|split].
  - intros s Hin. rewrite Forall_forall in Hops.
    specialize (Hops _ Hin). destruct s; exact Hops.
  - intros closed. now apply fold_apply_op_reads_or_sends.
Qed.

End SessionFacts.

(** ** What a run sends, whatever the answers *)

Lemma hook_calls_app (tr1 tr2 : list Event) :
  hook_calls (tr1 ++ tr2) = hook_calls tr1 ++ hook_calls tr2.
Proof. apply flat_map_app. Qed.

Section Forwarding.

Variable onerror : option ErrorHandlerFn.
Variable read_stream : Stream.
Variable write_stream : Stream.
Variable direction : string.

Abbreviation run_of tf :=
  (run is_ClosedResourceError onerror read_stream write_stream tf direction).
Abbreviation forward_of tf :=
  (forward_messages is_ClosedResourceError onerror read_stream write_stream tf
     direction).
Abbreviation resume_of tf :=
  (resume is_ClosedResourceError onerror read_stream write_stream tf direction).
Abbreviation without_hook := (@None MessageTransformFn).

Lemma resume_without_hook (s : Suspended) (r : Resumption) (st : Step) :
  (forall m, s <> AtTransform m) ->
  resume_of without_hook s r = Some st ->
  sends (fst st) = map (pair write_stream) (yielded_messages [r])
  /\ hook_calls (fst st) = []
  /\ (forall m, snd st <> Susp (AtTransform m)).
Proof.
  intros Hs H.
  destruct s as [|msg|msg]; [| exfalso; exact (Hs msg eq_refl) |];
    destruct r as [[message|message]| |[transformed|]| |exc|];
    cbn in H; try discriminate H; injection H as <-;
    unfold received_exception, inner_except, outer_except, call_onerror,
      prepend, next_item;
    destruct onerror as [handler|];
    repeat match goal with
      | |- context [handler ?x] => destruct (handler x)
      | |- context [is_ClosedResourceError ?x] =>
          destruct (is_ClosedResourceError x)
      end;
    cbn; repeat split; intros; discriminate.
Qed.

Lemma yielded_messages_cons (r : Resumption) (script : list Resumption) :
  yielded_messages (r :: script) = yielded_messages [r] ++ yielded_messages script.
Proof. unfold yielded_messages; cbn. now rewrite app_nil_r. Qed.

Lemma returned_by_hook_cons (r : Resumption) (script : list Resumption) :
  returned_by_hook (r :: script) = returned_by_hook [r] ++ returned_by_hook script.
Proof. unfold returned_by_hook; cbn. now rewrite app_nil_r. Qed.

(** One step of a run. *)
Lemma run_step (tf : option MessageTransformFn) (t t' : Task)
    (r : Resumption) (script : list Resumption) (tr : list Event) :
  run_of tf t (r :: script) = Some (tr, t') ->
  exists s ev t1 tr',
    t = Susp s
    /\ resume_of tf s r = Some (ev, t1)
    /\ run_of tf t1 script = Some (tr', t')
    /\ tr = ev ++ tr'.
Proof.
  destruct t as [|s|c]; try discriminate. rewrite run_cons.
  destruct (resume_of tf s r) as [[ev t1]|] eqn:Hres; try discriminate.
  unfold then_run; cbn [fst snd].
  destruct (run_of tf t1 script) as [[tr' t'']|] eqn:Hrun; try discriminate.
  unfold prepend; cbn [fst snd]. intros [= <- <-].
  exists s, ev, t1, tr'. repeat split; trivial.
Qed.

Lemma forward_run (tf : option MessageTransformFn) (script : list Resumption)
    (tr : list Event) (t : Task) :
  forward_of tf script = Some (tr, t) ->
  exists tr', run_of tf (Susp AtReceive) script = Some (tr', t)
              /\ tr = Op read_stream Receive :: tr'.
Proof.
  unfold forward_messages, then_run, start, next_item; cbn [fst snd].
  destruct (run_of tf (Susp AtReceive) script) as [[tr' t']|] eqn:Hrun;
    try discriminate.
  unfold prepend; cbn [fst snd app]. intros [= <- <-].
  exists tr'. split; trivial.
Qed.

Lemma run_without_hook (script : list Resumption) :
  forall (t t' : Task) (tr : list Event),
    (forall m, t <> Susp (AtTransform m)) ->
    run_of without_hook t script = Some (tr, t') ->
    sends tr = map (pair write_stream) (yielded_messages script)
    /\ hook_calls tr = [].
Proof.
  induction script as [|r script IH]; intros t t' tr Ht Hrun.
  - injection Hrun as <- <-. split; reflexivity.
  - apply run_step in Hrun as (s & ev & t1 & tr' & -> & Hres & Hrun & ->).
    assert (Hs : forall m, s <> AtTransform m)
      by (intros m ->; exact (Ht m eq_refl)).
    destruct (resume_without_hook s r _ Hs Hres) as (Hsends & Hhook & Ht1).
    destruct (IH _ _ _ Ht1 Hrun) as (IHsends & IHhook).
    cbn [fst snd] in *. split.
    + rewrite sends_app, Hsends, IHsends, (yielded_messages_cons r script).
      now rewrite map_app.
    + now rewrite hook_calls_app, Hhook, IHhook.
Qed.

(** X1.  With no transform hook, whatever the answers (transport errors,
    failing sends, a raising handler, the cancellation): the loop calls
    [send] with exactly the messages its read stream yielded, each once
    and in the order they came, on its write stream only; and it never
    calls a hook. *)
Theorem no_transform_sends_what_is_yielded (script : list Resumption)
    (tr : list Event) (t : Task) :
  forward_of without_hook script = Some (tr, t) ->
  sends tr = map (pair write_stream) (yielded_messages script)
  /\ hook_calls tr = [].
Proof.
  intros H. apply forward_run in H as (tr' & Hrun & ->).
  apply run_without_hook in Hrun; [exact Hrun | discriminate].
Qed.

Lemma resume_with_hook (f : MessageTransformFn) (s : Suspended)
    (r : Resumption) (st : Step) :
  resume_of (Some f) s r = Some st ->
  sends (fst st) = map (pair write_stream) (returned_by_hook [r])
  /\ hook_calls (fst st) = yielded_messages [r].
Proof.
  intros H.
  destruct s as [|msg|msg],
           r as [[message|message]| |[transformed|]| |exc|];
    cbn in H; try discriminate H; injection H as <-;
    unfold received_exception, inner_except, outer_except, call_onerror,
      prepend, next_item;
    destruct onerror as [handler|];
    repeat match goal with
      | |- context [handler ?x] => destruct (handler x)
      | |- context [is_ClosedResourceError ?x] =>
          destruct (is_ClosedResourceError x)
      end;
    cbn; split; reflexivity.
Qed.

Lemma run_with_hook (f : MessageTransformFn) (script : list Resumption) :
  forall (t t' : Task) (tr : list Event),
    run_of (Some f) t script = Some (tr, t') ->
    hook_calls tr = yielded_messages script
    /\ sends tr = map (pair write_stream) (returned_by_hook script).
Proof.
  induction script as [|r script IH]; intros t t' tr Hrun.
  - injection Hrun as <- <-. split; reflexivity.
  - apply run_step in Hrun as (s & ev & t1 & tr' & -> & Hres & Hrun & ->).
    destruct (resume_with_hook f s r _ Hres) as (Hsends & Hhook).
    destruct (IH _ _ _ Hrun) as (IHhook & IHsends).
    cbn [fst snd] in *. split.
    + now rewrite hook_calls_app, Hhook, IHhook, (yielded_messages_cons r script).
    + rewrite sends_app, Hsends, IHsends, (returned_by_hook_cons r script).
      now rewrite map_app.
Qed.

(** X2.  With a transform hook, whatever the answers: the hook is called
    with exactly the messages the read stream yielded, each once and in
    order, and [send] is called with exactly the messages the hook
    returned, each once and in order; no message reaches the write
    stream without having gone through the hook. *)
Theorem transform_sends_what_hook_returns (f : MessageTransformFn)
    (script : list Resumption) (tr : list Event) (t : Task) :
  forward_of (Some f) script = Some (tr, t) ->
  hook_calls tr = yielded_messages script
  /\ sends tr = map (pair write_stream) (returned_by_hook script).
Proof.
  intros H. apply forward_run in H as (tr' & Hrun & ->).
  apply run_with_hook in Hrun. exact Hrun.
Qed.

Lemma failures_cons (r : Resumption) (script : list Resumption) :
  failures (r :: script) = failures [r] ++ failures script.
Proof. unfold failures; cbn. now rewrite app_nil_r. Qed.

Lemma run_done (tf : option MessageTransformFn) (c : Completion)
    (script : list Resumption) (tr : list Event) (t : Task) :
  run_of tf (Done c) script = Some (tr, t) ->
  script = [] /\ tr = [] /\ t = Done c.
Proof.
  destruct script; [|discriminate]. intros [= <- <-]. repeat split.
Qed.

Lemma resume_escapes (tf : option MessageTransformFn) (s : Suspended)
    (r : Resumption) (st : Step) (e : Exception) :
  resume_of tf s r = Some st ->
  snd st = Done (Uncaught e) ->
  exists handler e0,
    onerror = Some handler /\ handler e0 = Some e
    /\ In e0 (handler_calls (fst st)).
Proof.
  intros H.
  destruct s as [|msg|msg],
           r as [[message|message]| |[transformed|]| |exc|];
    cbn in H; try discriminate H;
    try (destruct tf); injection H as <-;
    unfold received_exception, inner_except, outer_except, call_onerror,
      prepend, next_item;
    destruct onerror as [handler|];
    repeat match goal with
      | |- context [handler ?x] => destruct (handler x) eqn:?
      | |- context [is_ClosedResourceError ?x] =>
          destruct (is_ClosedResourceError x)
      end;
    cbn; try discriminate;
    intros [= <-]; exists handler; eexists;
    (split; [reflexivity | split; [eassumption | cbn; tauto]]).
Qed.






Lemma resume_reports (tf : option MessageTransformFn) (handler : ErrorHandlerFn)
    (s : Suspended) (r : Resumption) (st : Step) :
  onerror = Some handler ->
  (forall exc, handler exc = None) ->
  resume_of tf s r = Some st ->
  handler_calls (fst st) = failures [r]
  \/ exists e, is_ClosedResourceError e = true
               /\ failures [r] = [e]
               /\ handler_calls (fst st) = []
               /\ snd st = Done Returned.
Proof.
  intros Ho Hret H.
  destruct s as [|msg|msg],
           r as [[message|message]| |[transformed|]| |exc|];
    cbn in H; try discriminate H;
    try (destruct tf); injection H as <-;
    unfold received_exception, inner_except, outer_except, call_onerror,
      prepend, next_item;
    rewrite ?Ho, ?Hret;
    try (destruct (is_ClosedResourceError exc) eqn:Hc);
    cbn; try (left; reflexivity).
  all: right; exists exc; repeat split; assumption.
Qed.

(** X6.  With a handler that always returns, whatever the answers: the
    handler is called with exactly the exceptions the run met (those the
    read stream yielded and those a hook, a send or [__anext__] raised),
    each once and in order.  The one exception it is not given is a
    [ClosedResourceError] raised by [__anext__], on which the coroutine
    returns. *)
Theorem handler_gets_every_failure (tf : option MessageTransformFn)
    (handler : ErrorHandlerFn) (script : list Resumption)
    (tr : list Event) (t : Task) :
  onerror = Some handler ->
  (forall exc, handler exc = None) ->
  forward_of tf script = Some (tr, t) ->
  handler_calls tr = failures script
  \/ exists e, is_ClosedResourceError e = true
               /\ failures script = handler_calls tr ++ [e]
               /\ t = Done Returned.
Proof.
  intros Ho Hret H. apply forward_run in H as (tr' & Hrun & ->).
  change (handler_calls (Op read_stream Receive :: tr'))
    with (handler_calls tr').
  revert tr' Hrun. generalize (Susp AtReceive : Task).
  induction script as [|r script IH]; intros t0 tr' Hrun.
  - injection Hrun as <- <-. now left.
  - apply run_step in Hrun as (s & ev & t1 & tr2 & -> & Hres & Hrun & ->).
    rewrite (failures_cons r script), handler_calls_app.
    destruct (resume_reports tf handler s r _ Ho Hret Hres)
      as [Hev | (e & Hc & Hf & Hev & Ht1)]; cbn [fst snd] in *.
    + destruct (IH _ _ Hrun) as [IHeq | (e & Hc & IHf & IHt)].
      * left. now rewrite Hev, IHeq.
      * right. exists e. repeat split; trivial.
        now rewrite Hev, IHf, app_assoc.
    + subst t1. apply run_done in Hrun as (-> & -> & ->).
      right. exists e. repeat split; trivial.
      now rewrite Hev, Hf.
Qed.

Lemma run_answered_by (f : MessageTransformFn)
    (g : SessionMessage -> option SessionMessage) (ms : list SessionMessage) :
  run_of (Some f) (Susp AtReceive) (answered_by g ms) =
  Some (flat_map (fun m =>
                    CallTransform f m
                    :: match g m with
                       | Some t => [Op write_stream (Send t);
                                    Op read_stream Receive]
                       | None => [Log DEBUG direction; Op read_stream Receive]
                       end) ms,
        Susp AtReceive).
Proof.
  unfold answered_by. induction ms as [|m ms IH]; [reflexivity|].
  cbn [flat_map]. rewrite <- app_comm_cons, run_cons.
  cbn [resume received_message]. unfold then_run; cbn [fst snd].
  destruct (g m) as [t|].
  - cbn [app]. rewrite run_cons. cbn [resume].
    unfold then_run; cbn [fst snd]. rewrite run_cons. cbn [resume].
    unfold then_run, next_item; cbn [fst snd]. rewrite IH. reflexivity.
  - cbn [app]. rewrite run_cons. cbn [resume].
    unfold then_run, prepend, next_item; cbn [fst snd]. rewrite IH.
    reflexivity.
Qed.

Lemma returned_by_hook_answered_by
    (g : SessionMessage -> option SessionMessage) (ms : list SessionMessage) :
  returned_by_hook (Exception := Exception) (answered_by g ms) = kept g ms.
Proof.
  unfold returned_by_hook, answered_by, kept.
  induction ms as [|m ms IH]; [reflexivity|].
  cbn [flat_map]. rewrite flat_map_app, IH.
  destruct (g m); reflexivity.
Qed.

Lemma yielded_messages_answered_by
    (g : SessionMessage -> option SessionMessage) (ms : list SessionMessage) :
  yielded_messages (Exception := Exception) (answered_by g ms) = ms.
Proof.
  unfold yielded_messages, answered_by.
  induction ms as [|m ms IH]; [reflexivity|].
  cbn [flat_map]. rewrite flat_map_app, IH.
  destruct (g m); reflexivity.
Qed.

Lemma handler_calls_answered_by (f : MessageTransformFn)
    (g : SessionMessage -> option SessionMessage) (ms : list SessionMessage) :
  handler_calls
    (flat_map (fun m =>
                 CallTransform f m
                 :: match g m with
                    | Some t => [Op write_stream (Send t);
                                 Op read_stream Receive]
                    | None => [Log DEBUG direction; Op read_stream Receive]
                    end) ms) = [].
Proof.
  induction ms as [|m ms IH]; [reflexivity|].
  cbn [flat_map]. rewrite handler_calls_app, IH.
  destruct (g m); reflexivity.
Qed.

(** X7.  A hook that behaves as a function [g]: when the read stream
    yields [ms] and every send returns, the loop has called [send] with
    [g m] for each message [m] of [ms] that [g] does not drop, in the
    order of [ms]; it has called the hook once per message and the
    handler not at all, and it is waiting for the next item. *)
Theorem hook_maps_and_filters (f : MessageTransformFn)
    (g : SessionMessage -> option SessionMessage) (ms : list SessionMessage) :
  exists tr,
    forward_of (Some f) (answered_by g ms) = Some (tr, Susp AtReceive)
    /\ sends tr = map (pair write_stream) (kept g ms)
    /\ hook_calls tr = ms
    /\ handler_calls tr = [].
Proof.
  assert (Hrun : forward_of (Some f) (answered_by g ms)
                 = Some (Op read_stream Receive
                           :: flat_map (fun m =>
                                CallTransform f m
                                :: match g m with
                                   | Some t => [Op write_stream (Send t);
                                                Op read_stream Receive]
                                   | None => [Log DEBUG direction;
                                              Op read_stream Receive]
                                   end) ms,
                         Susp AtReceive)).
  { unfold forward_messages, then_run, start, next_item; cbn [fst snd].
    now rewrite run_answered_by. }
  eexists. split; [exact Hrun|].
  destruct (run_with_hook f _ _ _ _ (run_answered_by f g ms)) as (Hh & Hs).
  cbn [sends hook_calls handler_calls flat_map app].
  fold (sends (MessageTransformFn := MessageTransformFn)
          (Exception := Exception) (SessionMessage := SessionMessage)).
  repeat split.
  - unfold sends in Hs |- *. now rewrite Hs, returned_by_hook_answered_by.
  - unfold hook_calls in Hh |- *.
    now rewrite Hh, yielded_messages_answered_by.
  - apply handler_calls_answered_by.
Qed.

End Forwarding.

(** ** More on the session *)

Lemma resume_hooks_and_labels (onerror : option ErrorHandlerFn)
    (read_stream write_stream : Stream)
    (transform_fn : option MessageTransformFn) (direction : string)
    (s : Suspended) (r : Resumption) (st : Step) :
  resume is_ClosedResourceError onerror read_stream write_stream transform_fn
    direction s r = Some st ->
  (forall f m, In (CallTransform f m) (fst st) -> transform_fn = Some f)
  /\ (forall lvl label, In (Log lvl label) (fst st) -> label = direction).
Proof.
  intros H.
  destruct s as [|msg|msg], r as [[message|message]| |[transformed|]| |exc|];
    cbn in H; try discriminate H;
    try (destruct transform_fn); injection H as <-;
    unfold received_exception, inner_except, outer_except, call_onerror,
      prepend, next_item;
    destruct onerror as [handler|];
    repeat match goal with
      | |- context [handler ?x] => destruct (handler x)
      | |- context [is_ClosedResourceError ?x] =>
          destruct (is_ClosedResourceError x)
      end;
    cbn; split; intros;
    repeat match goal with
      | H : _ \/ _ |- _ => destruct H
      | H : False |- _ => contradiction
      | H : _ = _ |- _ => try discriminate H; injection H as <-
      end;
    subst; reflexivity.
Qed.

Lemma resume_never_uncaught (onerror : option ErrorHandlerFn)
    (read_stream write_stream : Stream)
    (transform_fn : option MessageTransformFn) (direction : string)
    (s : Suspended) (r : Resumption) (st : Step) (e : Exception) :
  (forall exc, handler_returns onerror exc) ->
  resume is_ClosedResourceError onerror read_stream write_stream transform_fn
    direction s r = Some st ->
  snd st <> Done (Uncaught e).
Proof.
  intros Hret H Hd.
  destruct (resume_escapes _ _ _ _ _ _ _ _ e H Hd) as (handler & e0 & Ho & He & _).
  specialize (Hret e0). rewrite Ho in Hret. cbn in Hret. congruence.
Qed.

Section MoreSessionFacts.

Variable onerror : option ErrorHandlerFn.
Variable on_client_message : option MessageTransformFn.
Variable on_server_message : option MessageTransformFn.

Abbreviation step_in :=
  (step is_ClosedResourceError onerror on_client_message on_server_message).
Abbreviation exec_in :=
  (exec is_ClosedResourceError onerror on_client_message on_server_message).
Abbreviation resume_dir :=
  (@resume_task SessionMessage Exception is_ClosedResourceError
     MessageTransformFn onerror on_client_message on_server_message).
Abbreviation hook_in := (hook_of on_client_message on_server_message).

Lemma resume_dir_eq (d : Direction) :
  resume_dir d =
  resume is_ClosedResourceError onerror (read_of d) (write_of d) (hook_in d)
    (label_of d).
Proof. destruct d; reflexivity. Qed.

Lemma exec_step (p p' : Proxy) (a : Action) (acts : list Action)
    (tr : list Event) :
  exec_in p (a :: acts) = Some (tr, p') ->
  exists ev p1 tr',
    step_in p a = Some (ev, p1)
    /\ exec_in p1 acts = Some (tr', p')
    /\ tr = ev ++ tr'.
Proof.
  rewrite exec_cons.
  destruct (step_in p a) as [[ev p1]|] eqn:Hstep; try discriminate.
  destruct (exec_in p1 acts) as [[tr' p2]|] eqn:Hexec; try discriminate.
  intros [= <- <-]. exists ev, p1, tr'. repeat split; trivial.
Qed.

(** X8.  The wiring of the two tasks.  Whatever a task of direction [d]
    does when it is started or resumed, the only stream it receives from
    is the read stream of its side, the only stream it sends on is the
    write stream of the other side, the only hook it calls is the hook
    of its direction, and its log records carry its own label. *)
Theorem direction_wiring (p p' : Proxy) (d : Direction) (a : Action)
    (ev : list Event) :
  a = Schedule d \/ (exists r, a = Resume d r) ->
  step_in p a = Some (ev, p') ->
  Forall (fun so => so = (read_of d, Receive)
                    \/ exists m, so = (write_of d, Send m))
         (stream_ops ev)
  /\ (forall f m, In (CallTransform f m) ev -> hook_in d = Some f)
  /\ (forall lvl label, In (Log lvl label) ev -> label = label_of d).
Proof.
  intros [-> | [r ->]]; cbn [step].
  - destruct (task p d); try discriminate. intros [= <- _].
    destruct d; cbn; repeat split;
      try (repeat constructor; fail);
      intros; repeat match goal with
                | H : _ \/ _ |- _ => destruct H
                | H : False |- _ => contradiction
                | H : _ = _ |- _ => discriminate H
                end.
  - destruct (task p d) as [|s|c]; try discriminate.
    destruct (scope_answers (cancel_called p) r); try discriminate.
    rewrite resume_dir_eq.
    destruct (resume _ _ _ _ _ _ s r) as [st|] eqn:Hres; try discriminate.
    intros [= <- _]. split.
    + exact (resume_stream_ops _ _ _ _ _ _ _ _ Hres).
    + exact (resume_hooks_and_labels _ _ _ _ _ _ _ _ Hres).
Qed.


Lemma step_resume_inv (p p' : Proxy) (d : Direction) (r : Resumption)
    (ev : list Event) :
  step_in p (Resume d r) = Some (ev, p') ->
  exists s t,
    task p d = Susp s
    /\ scope_answers (cancel_called p) r = true
    /\ resume_dir d s r = Some (ev, t)
    /\ p' = task_finished p d t.
Proof.
  cbn [step]. destruct (task p d) as [|s|c]; try discriminate.
  destruct (scope_answers (cancel_called p) r); try discriminate.
  destruct (resume_dir d s r) as [[ev' t]|] eqn:Hres; try discriminate.
  intros [= <- <-]. exists s, t. repeat split; trivial.
Qed.

Lemma step_keeps_scope (p p' : Proxy) (a : Action) (ev : list Event) :
  (forall exc, handler_returns onerror exc) ->
  leaves_body a = false ->
  step_in p a = Some (ev, p') ->
  cancel_called p' = cancel_called p
  /\ in_body p' = in_body p
  /\ (forall d e, task p' d = Done (Uncaught e) -> task p d = Done (Uncaught e)).
Proof.
  intros Hret Ha. destruct a as [d|d r|how]; [| |discriminate Ha].
  - cbn [step]. destruct (task p d) eqn:Ht; try discriminate.
    intros [= _ <-]. repeat split; try (destruct d; reflexivity).
    intros d' e; destruct d, d'; cbn; congruence.
  - intros H. apply step_resume_inv in H as (s & t & Ht & _ & Hres & ->).
    rewrite resume_dir_eq in Hres.
    assert (Hnu : forall e, t <> Done (Uncaught e))
      by (intros e; exact (resume_never_uncaught _ _ _ _ _ _ _ _ e Hret Hres)).
    destruct t as [| |[|e|]]; try (elim (Hnu e eq_refl));
      repeat split; try (destruct d; reflexivity);
      intros d' e'; destruct d, d'; cbn; congruence.
Qed.

(** X11.  With a handler that always returns (or none), nothing that
    comes from the streams or from the hooks ends the session: as long
    as the caller does not leave the body the scope is not cancelled,
    and no task is ended by an exception. *)
Theorem scope_cancelled_only_by_exit (acts : list Action) (p p' : Proxy)
    (tr : list Event) :
  (forall exc, handler_returns onerror exc) ->
  Forall (fun a => leaves_body a = false) acts ->
  exec_in p acts = Some (tr, p') ->
  cancel_called p' = cancel_called p
  /\ in_body p' = in_body p
  /\ (forall d e, task p' d = Done (Uncaught e) -> task p d = Done (Uncaught e)).
Proof.
  intros Hret Hacts. revert p tr.
  induction Hacts as [|a acts Ha _ IH]; intros p tr Hexec.
  - injection Hexec as <- <-. repeat split; trivial.
  - apply exec_step in Hexec as (ev & p1 & tr' & Hstep & Hexec & ->).
    destruct (step_keeps_scope _ _ _ _ Hret Ha Hstep) as (A1 & B1 & C1).
    destruct (IH _ _ Hexec) as (A2 & B2 & C2).
    repeat split; try congruence. eauto.
Qed.

Lemma sends_on_app (ws : Stream) (tr1 tr2 : list Event) :
  sends_on ws (tr1 ++ tr2) = sends_on ws tr1 ++ sends_on ws tr2.
Proof. apply flat_map_app. Qed.

Lemma Stream_eqb_refl (s : Stream) : Stream_eqb s s = true.
Proof. destruct s; reflexivity. Qed.

End MoreSessionFacts.

End Properties.

(** * Properties of the session with a shared handler *)

Section SharedHandlerFacts.

Context {SessionMessage : Type}.
Context {Exception : Type}.
Context (is_ClosedResourceError : Exception -> bool).
Context {MessageTransformFn : Type}.
Context {HandlerState : Type}.

Abbreviation Event := (@Event SessionMessage Exception MessageTransformFn).
Abbreviation Suspended := (@Suspended SessionMessage).
Abbreviation Task := (@Task SessionMessage Exception).
Abbreviation Resumption := (@Resumption SessionMessage Exception).
Abbreviation Step := (@Step SessionMessage Exception MessageTransformFn).
Abbreviation StepIn :=
  (@StepIn SessionMessage Exception MessageTransformFn HandlerState).
Abbreviation ErrorHandlerFn := (@ErrorHandlerFn Exception).
Abbreviation Handler := (@Handler Exception HandlerState).
Abbreviation Proxy := (@Proxy SessionMessage Exception).
Abbreviation Action := (@Action SessionMessage Exception).
Abbreviation Move := (@Move SessionMessage Exception).
Abbreviation CallOnError :=
  (@CallOnError SessionMessage Exception MessageTransformFn).
Abbreviation Op := (@Op SessionMessage Exception MessageTransformFn).
Abbreviation Log := (@Log SessionMessage Exception MessageTransformFn).
Abbreviation next_item :=
  (@next_item SessionMessage Exception MessageTransformFn).


Lemma forwarded_app (tf : option MessageTransformFn)
    (s1 s2 : list Resumption) :
  forwarded tf (s1 ++ s2) = forwarded tf s1 ++ forwarded tf s2.
Proof. apply flat_map_app. Qed.

(** ** The loop *)

Section LoopInFacts.

Variable onerror : option Handler.
Variable read_stream : Stream.
Variable write_stream : Stream.
Variable direction : string.

Abbreviation resume_at tf :=
  (resume_in_state is_ClosedResourceError onerror read_stream write_stream tf
     direction).
Abbreviation run_at tf :=
  (run_in_state is_ClosedResourceError onerror read_stream write_stream tf
     direction).
Abbreviation forward_at tf :=
  (forward_messages_in_state is_ClosedResourceError onerror read_stream
     write_stream tf direction).
Abbreviation call_handler :=
  (@call_onerror_in SessionMessage Exception MessageTransformFn HandlerState
     onerror).
Abbreviation outer_handler :=
  (@outer_except_in SessionMessage Exception is_ClosedResourceError
     MessageTransformFn HandlerState onerror direction).
Abbreviation inner_handler :=
  (@inner_except_in SessionMessage Exception is_ClosedResourceError
     MessageTransformFn HandlerState onerror read_stream direction).
Abbreviation exception_item :=
  (@received_exception_in SessionMessage Exception is_ClosedResourceError
     MessageTransformFn HandlerState onerror read_stream direction).

Lemma run_in_state_app (tf : option MessageTransformFn) (s1 s2 : list Resumption) :
  forall (t : Task) (h : HandlerState),
  run_at tf t (s1 ++ s2) h =
  match run_at tf t s1 h with
  | Some (st1, h1) =>
      match run_at tf (snd st1) s2 h1 with
      | Some (st2, h2) => Some (prepend (fst st1) st2, h2)
      | None => None
      end
  | None => None
  end.
Proof.
  induction s1 as [|r s1 IH]; intros t h.
  - cbn. destruct (run_at tf t s2 h) as [[st2 h2]|]; [|reflexivity].
    now rewrite prepend_nil.
  - cbn [app run_in_state]. destruct t as [|s|c]; try reflexivity.
    destruct (resume_at tf s r h) as [[st h']|]; [|reflexivity].
    rewrite IH. destruct (run_at tf (snd st) s1 h') as [[st1 h1]|];
      [|reflexivity].
    cbn [snd prepend].
    destruct (run_at tf (snd st1) s2 h1) as [[st2 h2]|]; [|reflexivity].
    unfold prepend; cbn [fst snd]. now rewrite app_assoc.
Qed.

Lemma forward_in_state_app (tf : option MessageTransformFn)
    (s1 s2 : list Resumption) (h : HandlerState) :
  forward_at tf (s1 ++ s2) h =
  match forward_at tf s1 h with
  | Some (st1, h1) =>
      match run_at tf (snd st1) s2 h1 with
      | Some (st2, h2) => Some (prepend (fst st1) st2, h2)
      | None => None
      end
  | None => None
  end.
Proof.
  unfold forward_messages_in_state. rewrite run_in_state_app.
  destruct (run_at tf (Susp AtReceive) s1 h) as [[st1 h1]|]; [|reflexivity].
  cbn [snd prepend].
  destruct (run_at tf (snd st1) s2 h1) as [[st2 h2]|]; [|reflexivity].
  unfold prepend; cbn [fst snd]. now rewrite app_assoc.
Qed.

(** A run cut in three: what the middle answers add is put between
    what the answers before and after them give, the handler being
    handed on from each part to the next. *)
Lemma splice_in_state (tf : option MessageTransformFn)
    (pre mid post : list Resumption) (s s' : Suspended) (t : Task)
    (tr1 ev tr2 : list Event) (h0 h1 h2 h3 : HandlerState) :
  forward_at tf pre h0 = Some ((tr1, Susp s), h1) ->
  run_at tf (Susp s) mid h1 = Some ((ev, Susp s'), h2) ->
  run_at tf (Susp s') post h2 = Some ((tr2, t), h3) ->
  forward_at tf (pre ++ mid ++ post) h0 = Some ((tr1 ++ ev ++ tr2, t), h3).
Proof.
  intros Hpre Hmid Hpost.
  rewrite forward_in_state_app, Hpre. cbn [snd fst].
  rewrite run_in_state_app, Hmid. cbn [snd fst]. rewrite Hpost.
  reflexivity.
Qed.

(** *** The three handlers when the call of [onerror] returns *)

Lemma call_onerror_in_returns (h h' : HandlerState) (exc : Exception) :
  returns_in onerror h exc h' ->
  call_handler h exc = (map CallOnError (reported_to onerror exc), None, h').
Proof.
  unfold returns_in, call_onerror_in, reported_to.
  destruct onerror as [handler|].
  - intros ->. reflexivity.
  - intros ->. reflexivity.
Qed.

Lemma received_exception_in_returns (h h' : HandlerState) (e : Exception) :
  returns_in onerror h e h' ->
  exception_item h e
  = ((Log WARNING direction :: map CallOnError (reported_to onerror e)
        ++ [Op read_stream Receive], Susp AtReceive), h').
Proof.
  intros Hret. unfold received_exception_in.
  rewrite (call_onerror_in_returns _ _ _ Hret). reflexivity.
Qed.

Lemma inner_except_in_returns (h h' : HandlerState) (exc : Exception) :
  returns_in onerror h exc h' ->
  inner_handler h exc
  = ((Log ERROR direction :: map CallOnError (reported_to onerror exc)
        ++ [Op read_stream Receive], Susp AtReceive), h').
Proof.
  intros Hret. unfold inner_except_in.
  rewrite (call_onerror_in_returns _ _ _ Hret). reflexivity.
Qed.

Lemma outer_except_in_returns (h h' : HandlerState) (exc : Exception) :
  is_ClosedResourceError exc = false ->
  returns_in onerror h exc h' ->
  outer_handler h exc
  = ((Log ERROR direction :: map CallOnError (reported_to onerror exc),
      Done Returned), h').
Proof.
  intros Hexc Hret. unfold outer_except_in. rewrite Hexc.
  rewrite (call_onerror_in_returns _ _ _ Hret). reflexivity.
Qed.

(** *** What a run sends *)

Lemma sends_log (lvl : LogLevel) (d : string) (l : list Event) :
  sends (Log lvl d :: l) = sends l.
Proof. reflexivity. Qed.

Lemma hook_calls_log (lvl : LogLevel) (d : string) (l : list Event) :
  hook_calls (Log lvl d :: l) = hook_calls l.
Proof. reflexivity. Qed.

Lemma call_onerror_in_sends (h : HandlerState) (exc : Exception) :
  sends (fst (fst (call_handler h exc))) = []
  /\ hook_calls (fst (fst (call_handler h exc))) = []
  /\ stream_ops (fst (fst (call_handler h exc))) = [].
Proof.
  unfold call_onerror_in. destruct onerror as [handler|]; [|now cbn].
  destruct (handler h exc) as [h' raised]. now cbn.
Qed.

Lemma outer_except_in_sends (h : HandlerState) (exc : Exception) :
  sends (fst (fst (outer_handler h exc))) = []
  /\ hook_calls (fst (fst (outer_handler h exc))) = [].
Proof.
  unfold outer_except_in. destruct (is_ClosedResourceError exc); [now cbn|].
  destruct (call_onerror_in_sends h exc) as (S & H & _).
  destruct (call_handler h exc) as [[ev raised] h']. cbn in *. now split.
Qed.

Lemma inner_except_in_sends (h : HandlerState) (exc : Exception) :
  sends (fst (fst (inner_handler h exc))) = []
  /\ hook_calls (fst (fst (inner_handler h exc))) = [].
Proof.
  unfold inner_except_in.
  destruct (call_onerror_in_sends h exc) as (S & H & _).
  destruct (call_handler h exc) as [[ev [exc'|]] h']; cbn [fst snd] in *.
  - destruct (outer_except_in_sends h' exc') as (S' & H').
    destruct (outer_handler h' exc') as [st h'']. cbn [fst snd] in *.
    unfold prepend; cbn [fst snd app].
    rewrite sends_log, hook_calls_log, sends_app, hook_calls_app.
    now rewrite S, S', H, H'.
  - unfold prepend; cbn [fst snd app].
    rewrite sends_log, hook_calls_log, sends_app, hook_calls_app.
    now rewrite S, H.
Qed.

Lemma received_exception_in_sends (h : HandlerState) (e : Exception) :
  sends (fst (fst (exception_item h e))) = []
  /\ hook_calls (fst (fst (exception_item h e))) = [].
Proof.
  unfold received_exception_in.
  destruct (call_onerror_in_sends h e) as (S & H & _).
  destruct (call_handler h e) as [[ev [exc'|]] h']; cbn [fst snd] in *.
  - destruct (inner_except_in_sends h' exc') as (S' & H').
    destruct (inner_handler h' exc') as [st h'']. cbn [fst snd] in *.
    unfold prepend; cbn [fst snd app].
    rewrite sends_log, hook_calls_log, sends_app, hook_calls_app.
    now rewrite S, S', H, H'.
  - unfold prepend; cbn [fst snd app].
    rewrite sends_log, hook_calls_log, sends_app, hook_calls_app.
    now rewrite S, H.
Qed.

(** Whatever the answer, and whatever the handler does: the only send
    a resumption makes is that of the message the read stream yielded
    (no hook) or the hook returned. *)
Lemma resume_in_state_sends (tf : option MessageTransformFn) (s : Suspended)
    (r : Resumption) (h h' : HandlerState) (st : Step) :
  resume_at tf s r h = Some (st, h') ->
  sends (fst st) = map (pair write_stream) (forwarded tf [r]).
Proof.
  intros Hres.
  assert (E : sends (fst st)
              = match resume_at tf s r h with
                | Some (st0, _) => sends (fst st0)
                | None => []
                end) by now rewrite Hres.
  rewrite E. clear E.
  destruct s as [|msg|msg], r as [[message|message]| |[transformed|]| |exc|];
    cbn [resume_in_state] in *; try discriminate Hres; clear Hres;
    try reflexivity.
  - unfold received_message. destruct tf; reflexivity.
  - pose proof (received_exception_in_sends h message) as (S & _).
    destruct (exception_item h message) as [st' h'']. exact S.
  - pose proof (outer_except_in_sends h exc) as (S & _).
    destruct (outer_handler h exc) as [st' h'']. exact S.
  - pose proof (inner_except_in_sends h exc) as (S & _).
    destruct (inner_handler h exc) as [st' h'']. exact S.
  - pose proof (inner_except_in_sends h exc) as (S & _).
    destruct (inner_handler h exc) as [st' h'']. exact S.
Qed.

Lemma run_in_state_sends (tf : option MessageTransformFn)
    (script : list Resumption) :
  forall (t : Task) (h h' : HandlerState) (st : Step),
  run_at tf t script h = Some (st, h') ->
  sends (fst st) = map (pair write_stream) (forwarded tf script).
Proof.
  induction script as [|r script IH]; intros t h h' st.
  - intros [= <- _]. reflexivity.
  - cbn [run_in_state]. destruct t as [|s|c]; try discriminate.
    destruct (resume_at tf s r h) as [[st1 h1]|] eqn:Hres; try discriminate.
    destruct (run_at tf (snd st1) script h1) as [[st2 h2]|] eqn:Hrun;
      try discriminate.
    intros [= <- _]. unfold prepend; cbn [fst].
    rewrite sends_app, (resume_in_state_sends _ _ _ _ _ _ Hres),
      (IH _ _ _ _ Hrun).
    change (r :: script) with ([r] ++ script).
    now rewrite forwarded_app, map_app.
Qed.

(** [forward_messages] along any script, with any handler: what it
    passes to [send], in order. *)
Lemma forward_in_state_sends (tf : option MessageTransformFn)
    (script : list Resumption) (h h' : HandlerState) (st : Step) :
  forward_at tf script h = Some (st, h') ->
  sends (fst st) = map (pair write_stream) (forwarded tf script).
Proof.
  unfold forward_messages_in_state.
  destruct (run_at tf (Susp AtReceive) script h) as [[st1 h1]|] eqn:Hrun;
    try discriminate.
  intros [= <- _]. cbn. exact (run_in_state_sends _ _ _ _ _ _ Hrun).
Qed.

(** *** The streams a resumption touches *)

Lemma resume_in_state_stream_ops (tf : option MessageTransformFn)
    (s : Suspended) (r : Resumption) (h h' : HandlerState) (st : Step) :
  resume_at tf s r h = Some (st, h') ->
  Forall (fun so => so = (read_stream, Receive)
                    \/ exists m, so = (write_stream, Send m))
         (stream_ops (fst st)).
Proof.
  intros Hres.
  destruct s as [|msg|msg], r as [[message|message]| |[transformed|]| |exc|];
    cbn [resume_in_state] in *; try discriminate Hres.
  all: revert Hres.
  all: unfold received_exception_in, inner_except_in, outer_except_in,
      call_onerror_in, received_message.
  all: destruct onerror as [handler|], tf as [f|].
  all: repeat (cbn;
               match goal with
               | |- context [is_ClosedResourceError ?e] =>
                   destruct (is_ClosedResourceError e)
               | |- context [match ?g ?a ?e with (_, _) => _ end] =>
                   destruct (g a e) as [? [?|]]
               end).
  all: cbn; intros [= <- <-]; cbn.
  all: repeat (apply Forall_cons;
               [first [left; reflexivity | right; eexists; reflexivity]|]).
  all: apply Forall_nil.
Qed.

(** *** A resumption that does not call the handler *)


(** *** How many sends a resumption makes *)


(** *** A handler every call of which returns *)

(** With such a handler (or none) no exception leaves the coroutine:
    the two [except] blocks catch what the streams and the hook
    raise. *)
Lemma resume_in_state_never_uncaught (tf : option MessageTransformFn)
    (s : Suspended) (r : Resumption) (h h' : HandlerState) (st : Step) :
  (forall k exc, exists k', returns_in onerror k exc k') ->
  resume_at tf s r h = Some (st, h') ->
  ended_by_exception (snd st) = false.
Proof.
  intros Hret.
  destruct s as [|msg|msg], r as [[message|message]| |[transformed|]| |exc|];
    cbn [resume_in_state]; try discriminate;
    try (intros [= <- _]; reflexivity).
  - intros [= <- _]. unfold received_message. destruct tf; reflexivity.
  - destruct (Hret h message) as [k Hk].
    rewrite (received_exception_in_returns _ _ _ Hk).
    intros [= <- _]. reflexivity.
  - destruct (is_ClosedResourceError exc) eqn:Hexc.
    + unfold outer_except_in. rewrite Hexc. intros [= <- _]. reflexivity.
    + destruct (Hret h exc) as [k Hk].
      rewrite (outer_except_in_returns _ _ _ Hexc Hk).
      intros [= <- _]. reflexivity.
  - destruct (Hret h exc) as [k Hk].
    rewrite (inner_except_in_returns _ _ _ Hk).
    intros [= <- _]. reflexivity.
  - destruct (Hret h exc) as [k Hk].
    rewrite (inner_except_in_returns _ _ _ Hk).
    intros [= <- _]. reflexivity.
Qed.

(** *** Failures of one item *)



(** C6, send failure, as the code has it.  A send that raises [exc],
    when the call of the handler on [exc] returns (or there is no
    handler): [exc] is reported to the handler once, one error is
    logged, the send is not repeated, and the loop is back at
    [async for], asking its read stream for the next item; from there
    it goes on as the later answers make it, and ends only as they
    make it end. *)
Theorem send_failure_isolated_if_handler_returns
    (transform_fn : option MessageTransformFn) (m : SessionMessage)
    (exc : Exception) (pre post : list Resumption) (tr1 tr2 : list Event)
    (t : Task) (h0 h1 h2 h3 : HandlerState) :
  forward_at transform_fn pre h0 = Some ((tr1, Susp (AtSend m)), h1) ->
  returns_in onerror h1 exc h2 ->
  run_at transform_fn (Susp AtReceive) post h2 = Some ((tr2, t), h3) ->
  exists ev,
    forward_at transform_fn (pre ++ Raised exc :: post) h0
      = Some ((tr1 ++ ev ++ tr2, t), h3)
    /\ forward_at transform_fn (pre ++ [Raised exc]) h0
      = Some ((tr1 ++ ev, Susp AtReceive), h2)
    /\ handler_calls ev = reported_to onerror exc
    /\ sends ev = []
    /\ error_records ev = [direction]
    /\ stream_ops ev = [(read_stream, Receive)].
Proof.
  intros Hpre Hret Hpost.
  assert (Hseg : run_at transform_fn (Susp (AtSend m)) [Raised exc] h1
                 = Some ((Log ERROR direction
                            :: map CallOnError (reported_to onerror exc)
                            ++ [Op read_stream Receive], Susp AtReceive), h2)).
  { cbn [run_in_state resume_in_state].
    rewrite (inner_except_in_returns _ _ _ Hret). cbn [snd fst].
    unfold prepend; cbn [fst snd]. now rewrite app_nil_r. }
  exists (Log ERROR direction :: map CallOnError (reported_to onerror exc)
            ++ [Op read_stream Receive]).
  split; [|split; [|split; [|split; [|split]]]].
  - eapply (splice_in_state _ pre [Raised exc] post (AtSend m) AtReceive);
      [exact Hpre|exact Hseg|exact Hpost].
  - rewrite forward_in_state_app, Hpre. cbn [snd fst]. now rewrite Hseg.
  - unfold reported_to; destruct onerror; reflexivity.
  - unfold reported_to; destruct onerror; reflexivity.
  - unfold reported_to; destruct onerror; reflexivity.
  - unfold reported_to; destruct onerror; reflexivity.
Qed.

End LoopInFacts.

(** ** The two embeddings agree *)

(** With a handler whose answer depends on its argument alone, the
    coroutine with the handler state threaded through is the coroutine
    of [resume], and leaves the state as it was. *)
Lemma resume_in_state_stateless (f : option ErrorHandlerFn)
    (rs ws : Stream) (tf : option MessageTransformFn) (dir : string)
    (s : Suspended) (r : Resumption) (h : HandlerState) :
  resume_in_state is_ClosedResourceError (option_map stateless f) rs ws tf dir
    s r h
  = option_map (fun st : Step => (st, h))
      (resume is_ClosedResourceError f rs ws tf dir s r).
Proof.
  destruct s as [|msg|msg], r as [[message|message]| |[transformed|]| |exc|];
    cbn [resume_in_state resume option_map]; try reflexivity.
  all: unfold received_exception_in, inner_except_in, outer_except_in,
      call_onerror_in, received_exception, inner_except, outer_except,
      call_onerror, stateless.
  all: destruct f as [f|].
  all: repeat (cbn;
               match goal with
               | |- context [is_ClosedResourceError ?e] =>
                   destruct (is_ClosedResourceError e)
               | |- context [match ?g ?e with Some _ => _ | None => _ end] =>
                   destruct (g e)
               end).
  all: reflexivity.
Qed.

Lemma run_in_state_stateless (f : option ErrorHandlerFn)
    (rs ws : Stream) (tf : option MessageTransformFn) (dir : string)
    (script : list Resumption) :
  forall (t : Task) (h : HandlerState),
  run_in_state is_ClosedResourceError (option_map stateless f) rs ws tf dir
    t script h
  = option_map (fun st : Step => (st, h))
      (run is_ClosedResourceError f rs ws tf dir t script).
Proof.
  induction script as [|r script IH]; intros t h; [reflexivity|].
  cbn [run_in_state run]. destruct t as [|s|c]; try reflexivity.
  rewrite resume_in_state_stateless.
  destruct (resume is_ClosedResourceError f rs ws tf dir s r) as [st|];
    [|reflexivity].
  cbn [option_map]. rewrite IH. unfold then_run.
  destruct (run is_ClosedResourceError f rs ws tf dir (snd st) script);
    reflexivity.
Qed.

(** ** The session *)

Lemma sends_on_of_sends (w : Stream) (ev : list Event) :
  forall l : list SessionMessage,
  sends ev = map (pair w) l -> sends_on w ev = l.
Proof.
  induction ev as [|e ev IH]; intros l H.
  - destruct l; [reflexivity|discriminate H].
  - destruct e as [s [|m|]|f m|exc|lvl label];
      try (apply IH; exact H).
    destruct l as [|m' l]; [discriminate H|].
    cbn in H. injection H as -> -> H.
    cbn [sends_on flat_map]. rewrite Stream_eqb_refl. cbn [app].
    f_equal. apply IH. exact H.
Qed.

Lemma sends_on_of_foreign (w w' : Stream) (ev : list Event) :
  Stream_eqb w w' = false ->
  forall l : list SessionMessage,
  sends ev = map (pair w') l -> sends_on w ev = [].
Proof.
  intros Hne. induction ev as [|e ev IH]; intros l H; [reflexivity|].
  destruct e as [s [|m|]|f m|exc|lvl label];
    try (apply (IH l); exact H).
  destruct l as [|m' l]; [discriminate H|].
  cbn in H. injection H as -> -> H.
  cbn [sends_on flat_map]. rewrite Hne. cbn [app].
  apply (IH l). exact H.
Qed.

Section SessionInFacts.

Variable onerror : option Handler.
Variable on_client_message : option MessageTransformFn.
Variable on_server_message : option MessageTransformFn.

Abbreviation advance_in :=
  (advance is_ClosedResourceError onerror on_client_message
     on_server_message).
Abbreviation advance_all_in :=
  (advance_all is_ClosedResourceError onerror on_client_message
     on_server_message).
Abbreviation resume_dir_in :=
  (@resume_task_in_state SessionMessage Exception is_ClosedResourceError
     MessageTransformFn HandlerState onerror on_client_message
     on_server_message).
Abbreviation hook_in := (hook_of on_client_message on_server_message).

(** Lines 140-153, read off [resume_task_in_state]. *)
Lemma resume_task_in_state_wiring (d : Direction) :
  resume_dir_in d
  = resume_in_state is_ClosedResourceError onerror (read_of d) (write_of d)
      (hook_in d) (label_of d).
Proof. destruct d; reflexivity. Qed.

Lemma advance_all_cons (p : Proxy) (h : HandlerState) (m : Move)
    (ms : list Move) :
  advance_all_in p h (m :: ms) =
  match advance_in p h m with
  | Some (ev, p', h') =>
      match advance_all_in p' h' ms with
      | Some (ev', p'', h'') => Some (ev ++ ev', p'', h'')
      | None => None
      end
  | None => None
  end.
Proof. reflexivity. Qed.



(** *** What each direction sends *)

Lemma advance_sends_on (d : Direction) (p p' : Proxy) (h h' : HandlerState)
    (m : Move) (ev : list Event) :
  advance_in p h m = Some (ev, p', h') ->
  sends_on (write_of d) ev = forwarded (hook_in d) (answers_in d [m]).
Proof.
  destruct m as [[d'|d' r|how]|]; cbn [advance].
  - destruct (task p d'); try discriminate. intros [= <- _ _].
    destruct d'; reflexivity.
  - destruct (task p d') as [|s|c]; try discriminate.
    rewrite resume_task_in_state_wiring.
    destruct (resume_in_state is_ClosedResourceError onerror (read_of d')
                (write_of d') (hook_in d') (label_of d') s r h)
      as [[st h1]|] eqn:Hres; try discriminate.
    intros [= <- _ _].
    pose proof (resume_in_state_sends _ _ _ _ _ _ _ _ _ _ Hres) as S.
    unfold answers_in; cbn [flat_map]. rewrite app_nil_r.
    destruct d, d'; cbn [Direction_eqb].
    + now apply sends_on_of_sends.
    + exact (sends_on_of_foreign server_write client_write _ eq_refl _ S).
    + exact (sends_on_of_foreign client_write server_write _ eq_refl _ S).
    + now apply sends_on_of_sends.
  - destruct (in_body p); try discriminate. intros [= <- _ _]. reflexivity.
  - destruct (group_cancels p); try discriminate.
    intros [= <- _ _]. reflexivity.
Qed.

Lemma answers_in_cons (d : Direction) (m : Move) (ms : list Move) :
  answers_in d (m :: ms) = answers_in d [m] ++ answers_in d ms.
Proof. unfold answers_in. cbn [flat_map]. now rewrite app_nil_r. Qed.

Lemma advance_all_sends_on (d : Direction) (ms : list Move) :
  forall (p p' : Proxy) (h h' : HandlerState) (tr : list Event),
  advance_all_in p h ms = Some (tr, p', h') ->
  sends_on (write_of d) tr = forwarded (hook_in d) (answers_in d ms).
Proof.
  induction ms as [|m ms IH]; intros p p' h h' tr.
  - intros [= <- _ _]. reflexivity.
  - rewrite advance_all_cons.
    destruct (advance_in p h m) as [[[ev p1] h1]|] eqn:Hm; try discriminate.
    destruct (advance_all_in p1 h1 ms) as [[[ev' p2] h2]|] eqn:Hms;
      try discriminate.
    intros [= <- _ _].
    rewrite sends_on_app, answers_in_cons, forwarded_app.
    now rewrite (advance_sends_on d _ _ _ _ _ _ Hm), (IH _ _ _ _ _ Hms).
Qed.

(** *** Once the scope is cancelled *)


Lemma task_set_task (p : Proxy) (d d' : Direction) (t : Task) :
  task (set_task p d' t) d = if Direction_eqb d d' then t else task p d.
Proof. destruct d, d'; reflexivity. Qed.





(** *** How many sends are still made once stream calls are abandoned *)




(** *** The streams, and the scope, in any session *)

Lemma advance_stream_ops (p p' : Proxy) (h h' : HandlerState) (m : Move)
    (ev : list Event) :
  advance_in p h m = Some (ev, p', h') ->
  Forall reads_or_sends (stream_ops ev).
Proof.
  destruct m as [[d|d r|how]|]; cbn [advance].
  - destruct (task p d); try discriminate. intros [= <- _ _].
    destruct d; repeat constructor.
  - destruct (task p d) as [|s|c]; try discriminate.
    rewrite resume_task_in_state_wiring.
    destruct (resume_in_state is_ClosedResourceError onerror (read_of d)
                (write_of d) (hook_in d) (label_of d) s r h)
      as [[st h1]|] eqn:Hres; try discriminate.
    intros [= <- _ _].
    apply resume_in_state_stream_ops in Hres.
    eapply Forall_impl; [|exact Hres].
    intros so [ -> | [m -> ] ]; destruct d; exact I.
  - destruct (in_body p); try discriminate. intros [= <- _ _]. constructor.
  - destruct (group_cancels p); try discriminate.
    intros [= <- _ _]. constructor.
Qed.

Lemma advance_all_stream_ops (ms : list Move) :
  forall (p p' : Proxy) (h h' : HandlerState) (tr : list Event),
  advance_all_in p h ms = Some (tr, p', h') ->
  Forall reads_or_sends (stream_ops tr).
Proof.
  induction ms as [|m ms IH]; intros p p' h h' tr.
  - intros [= <- _ _]. constructor.
  - rewrite advance_all_cons.
    destruct (advance_in p h m) as [[[ev p1] h1]|] eqn:Em; try discriminate.
    destruct (advance_all_in p1 h1 ms) as [[[ev' p2] h2]|] eqn:Ems;
      try discriminate.
    intros [= <- _ _]. rewrite stream_ops_app. apply Forall_app. split.
    + exact (advance_stream_ops _ _ _ _ _ _ Em).
    + exact (IH _ _ _ _ _ Ems).
Qed.

(** X14.  The streams stay the caller's in every session: with a
    handler of any kind, shared by the two tasks, whatever the answers
    of the awaited calls, also those that arrive after the scope has
    been cancelled, and whether or not the task group has acted on an
    exception, the only operations made on the four streams are
    receiving from [client_read] and [server_read] and sending on
    [server_write] and [client_write]; none is closed. *)
Theorem streams_never_closed_in_any_session (ms : list Move) (p : Proxy)
    (h h' : HandlerState) (tr : list Event) :
  advance_all_in mcp_proxy h ms = Some (tr, p, h') ->
  Forall reads_or_sends (stream_ops tr)
  /\ (forall s, ~ In (s, Close) (stream_ops tr))
  /\ (forall closed, closed_after tr closed = closed).
Proof.
  intros Hall. pose proof (advance_all_stream_ops _ _ _ _ _ _ Hall) as Hops.
  split; [exact Hops|split].
  - intros s Hin. rewrite Forall_forall in Hops.
    specialize (Hops _ Hin). destruct s; exact Hops.
  - intros closed. now apply fold_apply_op_reads_or_sends.
Qed.

Lemma advance_keeps_scope (p p' : Proxy) (h h' : HandlerState) (m : Move)
    (ev : list Event) :
  (forall k exc, exists k', returns_in onerror k exc k') ->
  (forall how, m <> Act (ExitScope how)) ->
  (forall d, ended_by_exception (task p d) = false) ->
  advance_in p h m = Some (ev, p', h') ->
  cancel_called p' = cancel_called p
  /\ in_body p' = in_body p
  /\ (forall d, ended_by_exception (task p' d) = false)
  /\ m <> GroupCancels.
Proof.
  intros Hret Hm Hp.
  destruct m as [[d|d r|how]|]; cbn [advance].
  - destruct (task p d) eqn:Ht; try discriminate. intros [= _ <- _].
    repeat split; try (destruct d; reflexivity); try discriminate.
    intros d'. rewrite task_set_task.
    destruct (Direction_eqb d' d); [destruct d; reflexivity|apply Hp].
  - destruct (task p d) as [|s|c]; try discriminate.
    rewrite resume_task_in_state_wiring.
    destruct (resume_in_state is_ClosedResourceError onerror (read_of d)
                (write_of d) (hook_in d) (label_of d) s r h)
      as [[st h1]|] eqn:Hres; try discriminate.
    intros [= _ <- _].
    repeat split; try (destruct d; reflexivity); try discriminate.
    intros d'. rewrite task_set_task.
    destruct (Direction_eqb d' d); [|apply Hp].
    exact (resume_in_state_never_uncaught _ _ _ _ _ _ _ _ _ _ Hret Hres).
  - now destruct (Hm how).
  - unfold group_cancels. rewrite (Hp ClientToServer), (Hp ServerToClient).
    discriminate.
Qed.

(** X15.  With a shared handler every call of which returns, in
    whatever state it is (or with none), nothing that comes from the
    streams or from the hooks ends the session: as long as the caller
    does not leave the body, no task is ended by an exception, the
    task group never gets to act, and the scope is not cancelled. *)
Theorem returning_handler_keeps_session (ms : list Move) :
  forall (p p' : Proxy) (h h' : HandlerState) (tr : list Event),
  (forall k exc, exists k', returns_in onerror k exc k') ->
  Forall (fun m => forall how, m <> Act (ExitScope how)) ms ->
  (forall d, ended_by_exception (task p d) = false) ->
  advance_all_in p h ms = Some (tr, p', h') ->
  cancel_called p' = cancel_called p
  /\ in_body p' = in_body p
  /\ (forall d, ended_by_exception (task p' d) = false)
  /\ ~ In GroupCancels ms.
Proof.
  induction ms as [|m ms IH]; intros p p' h h' tr Hret Hms Hp.
  - intros [= _ <- _]. repeat split; trivial. intros [].
  - rewrite advance_all_cons.
    destruct (advance_in p h m) as [[[ev p1] h1]|] eqn:Em; try discriminate.
    destruct (advance_all_in p1 h1 ms) as [[[ev' p2] h2]|] eqn:Ems;
      try discriminate.
    intros [= _ <- _]. inversion Hms as [|? ? Hm Hms']; subst.
    destruct (advance_keeps_scope _ _ _ _ _ _ Hret Hm Hp Em)
      as (A1 & B1 & C1 & D1).
    destruct (IH _ _ _ _ _ Hret Hms' C1 Ems) as (A2 & B2 & C2 & D2).
    repeat split; try congruence.
    intros [E|E]; [now apply D1|now apply D2].
Qed.

(** *** The exit of the scope, a failing receive, the two directions *)




(** X12.  In a session each direction sends what its own answers make
    it send.  Whatever the moves of a session from its entry, whatever
    the other direction meets and whatever the shared handler does
    (return, raise, depend on earlier calls by either task): the
    messages sent on a direction's write stream are, in order, the
    messages its read stream yielded when it has no hook, the messages
    its hook returned when it has one; they are the sends of
    [forward_messages] run alone on the answers that direction got,
    with any handler in any state. *)
Theorem each_direction_sends_its_own (d : Direction) (ms : list Move)
    (p : Proxy) (h h' : HandlerState) (tr : list Event) :
  advance_all_in mcp_proxy h ms = Some (tr, p, h') ->
  sends_on (write_of d) tr = forwarded (hook_in d) (answers_in d ms)
  /\ (forall (alone : option Handler) (k k' : HandlerState) (st : Step),
        forward_messages_in_state is_ClosedResourceError alone (read_of d)
          (write_of d) (hook_in d) (label_of d) (answers_in d ms) k
        = Some (st, k') ->
        sends (fst st) = map (pair (write_of d)) (sends_on (write_of d) tr)).
Proof.
  intros Hall.
  pose proof (advance_all_sends_on d _ _ _ _ _ _ Hall) as Hd.
  split; [exact Hd|].
  intros alone k k' st Halone. rewrite Hd.
  exact (forward_in_state_sends _ _ _ _ _ _ _ _ _ Halone).
Qed.

End SessionInFacts.

(** ** The runs of the first session are runs of the second *)

Lemma advance_all_app (onerror : option Handler)
    (on_client_message on_server_message : option MessageTransformFn)
    (ms1 ms2 : list Move) :
  forall (p : Proxy) (h : HandlerState),
  advance_all is_ClosedResourceError onerror on_client_message
    on_server_message p h (ms1 ++ ms2)
  = match
      advance_all is_ClosedResourceError onerror on_client_message
        on_server_message p h ms1
    with
    | Some (tr1, p1, h1) =>
        match
          advance_all is_ClosedResourceError onerror on_client_message
            on_server_message p1 h1 ms2
        with
        | Some (tr2, p2, h2) => Some (tr1 ++ tr2, p2, h2)
        | None => None
        end
    | None => None
    end.
Proof.
  induction ms1 as [|m ms1 IH]; intros p h.
  - cbn. now destruct (advance_all _ _ _ _ p h ms2) as [[[tr2 p2] h2]|].
  - cbn [app advance_all].
    destruct (advance _ _ _ _ p h m) as [[[ev p1] h1]|]; [|reflexivity].
    rewrite IH.
    destruct (advance_all _ _ _ _ p1 h1 ms1) as [[[tr1 p2] h2]|];
      [|reflexivity].
    destruct (advance_all _ _ _ _ p2 h2 ms2) as [[[tr2 p3] h3]|];
      [|reflexivity].
    now rewrite app_assoc.
Qed.

Lemma resume_task_in_state_stateless (f : option ErrorHandlerFn)
    (on_client_message on_server_message : option MessageTransformFn)
    (d : Direction) (s : Suspended) (r : Resumption) (h : HandlerState) :
  resume_task_in_state is_ClosedResourceError (option_map stateless f)
    on_client_message on_server_message d s r h
  = option_map (fun st : Step => (st, h))
      (resume_task is_ClosedResourceError f on_client_message
         on_server_message d s r).
Proof. destruct d; apply resume_in_state_stateless. Qed.

(** A move of the first session is a move of the second, followed by
    the move of the task group when an exception has left the task. *)
Lemma step_is_advance (f : option ErrorHandlerFn)
    (on_client_message on_server_message : option MessageTransformFn)
    (p p' : Proxy) (a : Action) (ev : list Event) (h : HandlerState) :
  step is_ClosedResourceError f on_client_message on_server_message p a
  = Some (ev, p') ->
  exists ms,
    advance_all is_ClosedResourceError (option_map stateless f)
      on_client_message on_server_message p h ms
    = Some (ev, p', h)
    /\ actions_of ms = [a].
Proof.
  destruct a as [d|d r|how]; cbn [step].
  - destruct (task p d) eqn:Ht; try discriminate. intros [= <- <-].
    exists [Act (Schedule d)]. cbn [advance_all advance]. rewrite Ht.
    now rewrite app_nil_r.
  - destruct (task p d) as [|s|c] eqn:Ht; try discriminate.
    destruct (scope_answers (cancel_called p) r); try discriminate.
    destruct (resume_task is_ClosedResourceError f on_client_message
                on_server_message d s r) as [st|] eqn:Hres;
      try discriminate.
    intros [= <- <-].
    assert (Hadv : advance is_ClosedResourceError (option_map stateless f)
                     on_client_message on_server_message p h
                     (Act (Resume d r))
                   = Some (fst st, set_task p d (snd st), h)).
    { cbn [advance]. rewrite Ht, resume_task_in_state_stateless, Hres.
      reflexivity. }
    destruct (ended_by_exception (snd st)) eqn:Hend.
    + exists [Act (Resume d r); GroupCancels].
      cbn [advance_all]. rewrite Hadv. cbn [advance].
      destruct (snd st) as [| |[|e|]]; try discriminate Hend.
      unfold group_cancels, task_finished.
      destruct d; cbn; rewrite ?Bool.orb_true_r, !app_nil_r; split;
        reflexivity.
    + exists [Act (Resume d r)].
      cbn [advance_all]. rewrite Hadv, app_nil_r.
      destruct (snd st) as [| |[|e|]]; try discriminate Hend;
        split; reflexivity.
  - destruct (in_body p) eqn:Hb; try discriminate. intros [= <- <-].
    exists [Act (ExitScope how)]. cbn [advance_all advance]. rewrite Hb.
    split; reflexivity.
Qed.

Lemma exec_is_advance_all (f : option ErrorHandlerFn)
    (on_client_message on_server_message : option MessageTransformFn)
    (acts : list Action) :
  forall (p p' : Proxy) (tr : list Event) (h : HandlerState),
  exec is_ClosedResourceError f on_client_message on_server_message p acts
  = Some (tr, p') ->
  exists ms,
    advance_all is_ClosedResourceError (option_map stateless f)
      on_client_message on_server_message p h ms
    = Some (tr, p', h)
    /\ actions_of ms = acts.
Proof.
  induction acts as [|a acts IH]; intros p p' tr h.
  - intros [= <- <-]. now exists [].
  - cbn [exec].
    destruct (step _ _ _ _ p a) as [[ev p1]|] eqn:Hstep; try discriminate.
    destruct (exec _ _ _ _ p1 acts) as [[ev' p2]|] eqn:Hexec;
      try discriminate.
    intros [= <- <-].
    destruct (step_is_advance _ _ _ _ _ _ _ h Hstep) as (ms1 & H1 & A1).
    destruct (IH _ _ _ h Hexec) as (ms2 & H2 & A2).
    exists (ms1 ++ ms2). rewrite advance_all_app, H1, H2. split; trivial.
    unfold actions_of in *. now rewrite flat_map_app, A1, A2.
Qed.

End SharedHandlerFacts.

(** * Properties of the example server *)

Section SimpleProxyFacts.

Context {SessionMessage : Type}.
Context {Exception : Type}.
Context (is_ClosedResourceError : Exception -> bool).
Context (root_of : SessionMessage -> Root).

Lemma kept_all (g : SessionMessage -> option SessionMessage)
    (ms : list SessionMessage) :
  (forall m, g m = Some m) -> kept g ms = ms.
Proof.
  intros Hg. unfold kept. induction ms as [|m ms IH]; [reflexivity|].
  cbn [flat_map]. rewrite Hg, IH. reflexivity.
Qed.

Lemma inspected_loop (onerror : option (@ErrorHandlerFn Exception))
    (read_stream write_stream : Stream) (direction : string)
    (hook : option (@Inspector SessionMessage)) (ms : list SessionMessage) :
  (forall f m, hook = Some f -> snd (f m) = Some m) ->
  exists tr,
    forward_messages is_ClosedResourceError onerror read_stream write_stream
      hook direction (inspected hook ms) = Some (tr, Susp AtReceive)
    /\ sends tr = map (pair write_stream) ms
    /\ handler_calls tr = [].
Proof.
  intros Hid. destruct hook as [f|]; cbn [inspected].
  - pose proof (run_answered_by is_ClosedResourceError onerror read_stream
                  write_stream direction f (fun m => snd (f m)) ms) as Hrun.
    destruct (run_with_hook is_ClosedResourceError onerror read_stream
                write_stream direction f _ _ _ _ Hrun) as (_ & Hs).
    eexists. split; [|split].
    + unfold forward_messages, then_run, start, next_item; cbn [fst snd].
      rewrite Hrun. reflexivity.
    + unfold prepend; cbn [fst snd app sends flat_map].
      unfold sends in Hs. rewrite Hs, returned_by_hook_answered_by.
      rewrite kept_all; [reflexivity|]. intros m. now apply Hid.
    + unfold prepend; cbn [fst snd app handler_calls flat_map].
      apply handler_calls_answered_by.
  - pose proof (run_delivers is_ClosedResourceError
                  (MessageTransformFn := @Inspector SessionMessage)
                  onerror read_stream write_stream direction ms) as Hrun.
    eexists. split; [|split].
    + unfold forward_messages, then_run, start, next_item; cbn [fst snd].
      rewrite Hrun. reflexivity.
    + unfold prepend; cbn [fst snd app sends flat_map].
      apply sends_forwarded.
    + unfold prepend; cbn [fst snd app handler_calls flat_map].
      apply handler_calls_forwarded.
Qed.

(** X13.  Inspection is transparent.  The example server run with
    [--inspect] or with [--no-inspect] forwards the same: when a read
    stream yields the messages [ms] and the sends return, the task of
    either direction has called [send] with exactly [ms], in order, on
    the write stream of the other side, and [handle_error] has not been
    called. *)
Theorem inspection_is_transparent (inspect : bool) (ms : list SessionMessage) :
  (exists tr,
     forward_messages is_ClosedResourceError (Some handle_error)
       client_read server_write (on_client_message_for root_of inspect)
       "client→server"
       (inspected (on_client_message_for root_of inspect) ms)
     = Some (tr, Susp AtReceive)
     /\ sends tr = map (pair server_write) ms
     /\ handler_calls tr = [])
  /\ (exists tr,
        forward_messages is_ClosedResourceError (Some handle_error)
          server_read client_write (on_server_message_for root_of inspect)
          "server→client"
          (inspected (on_server_message_for root_of inspect) ms)
        = Some (tr, Susp AtReceive)
        /\ sends tr = map (pair client_write) ms
        /\ handler_calls tr = []).
Proof.
  split; apply inspected_loop; intros f m; destruct inspect; cbn;
    intros [= <-]; reflexivity.
Qed.

End SimpleProxyFacts.


(** * Scenarios *)

Lemma dropped_message_not_forwarded_witness :
  exists ev,
    server_to_client_loop (Some log_error) (Some "filter"%string)
      ([] ++ Yielded (inl 1) :: Transformed None
          :: [Yielded (inl 2); Transformed (Some 2); SendReturned])
    = Some ([Op server_read Receive] ++ ev
              ++ [CallTransform "filter"%string 2; Op client_write (Send 2);
                  Op server_read Receive],
            Susp AtReceive)
    /\ sends ev = []
    /\ handler_calls ev = []
    /\ error_records ev = []
    /\ hook_calls ev = [1].
Proof.
  apply (dropped_message_not_forwarded isinstance_ClosedResourceError
           (Some log_error) server_read client_write "server→client"
           "filter"%string 1 []
           [Yielded (inl 2); Transformed (Some 2); SendReturned]);
    reflexivity.
Defined.

Lemma transformed_message_replaces_witness :
  exists ev,
    client_to_server_loop None (Some "rewrite"%string)
      ([] ++ [Yielded (inl 1); Transformed (Some 7)])
    = Some ([Op client_read Receive] ++ ev, Susp (AtSend 7))
    /\ sends ev = [(server_write, 7)]
    /\ hook_calls ev = [1].
Proof.
  apply (transformed_message_replaces isinstance_ClosedResourceError None
           client_read server_write "client→server" "rewrite"%string 1 7 []);
    reflexivity.
Defined.

Lemma stream_closure_silent_witness :
  exists ev,
    client_to_server_loop (Some log_error) None
      ([Yielded (inl 1); SendReturned] ++ [Raised ClosedResourceError])
    = Some ([Op client_read Receive; Op server_write (Send 1);
             Op client_read Receive] ++ ev,
            Done Returned)
    /\ handler_calls ev = []
    /\ error_records ev = []
    /\ sends ev = [].
Proof.
  apply (stream_closure_silent isinstance_ClosedResourceError
           (Some log_error) client_read server_write "client→server" None
           (Raised ClosedResourceError) [Yielded (inl 1); SendReturned]);
    reflexivity.
Defined.

Lemma streams_never_closed_witness :
  Forall reads_or_sends
    (stream_ops
       ([Op client_read Receive; Op server_write (Send 1);
         Op client_read Receive; Op server_read Receive]
        : list ScenarioEvent))
  /\ (forall s,
        ~ In (s, Close)
            (stream_ops
               ([Op client_read Receive; Op server_write (Send 1);
                 Op client_read Receive; Op server_read Receive]
                : list ScenarioEvent)))
  /\ (forall closed,
        closed_after
          ([Op client_read Receive; Op server_write (Send 1);
            Op client_read Receive; Op server_read Receive]
           : list ScenarioEvent) closed
        = closed).
Proof.
  apply (streams_never_closed isinstance_ClosedResourceError
           (Some log_error) None None
           [Schedule ClientToServer; Resume ClientToServer (Yielded (inl 1));
            Resume ClientToServer SendReturned; Schedule ServerToClient;
            ExitScope BodyCompleted;
            Resume ClientToServer CancelledError;
            Resume ServerToClient CancelledError]
           [Op client_read Receive; Op server_write (Send 1);
            Op client_read Receive; Op server_read Receive]
           both_cancelled);
    reflexivity.
Defined.

(** End-to-end scenario 1: R1, R2, R3 from the client, no transform. *)
Example scenario_1 :
  client_to_server_loop (Some log_error) None
    (delivers [1; 2; 3] ++ [StopAsyncIteration])
  = Some ([Op client_read Receive;
           Op server_write (Send 1); Op client_read Receive;
           Op server_write (Send 2); Op client_read Receive;
           Op server_write (Send 3); Op client_read Receive],
          Done Returned).
Proof. reflexivity. Qed.

(** End-to-end scenario 2: the server's S1 is dropped by the hook. *)
Example scenario_2 :
  server_to_client_loop (Some log_error) (Some "drop"%string)
    [Yielded (inl 1); Transformed None; StopAsyncIteration]
  = Some ([Op server_read Receive; CallTransform "drop"%string 1;
           Log DEBUG "server→client"; Op server_read Receive],
          Done Returned).
Proof. reflexivity. Qed.

(** End-to-end scenario 3: M1, a transport error, M2. *)
Example scenario_3 :
  client_to_server_loop (Some log_error) None
    [Yielded (inl 1); SendReturned; Yielded (inr ValueError);
     Yielded (inl 2); SendReturned; StopAsyncIteration]
  = Some ([Op client_read Receive;
           Op server_write (Send 1); Op client_read Receive;
           Log WARNING "client→server"; CallOnError ValueError;
           Op client_read Receive;
           Op server_write (Send 2); Op client_read Receive],
          Done Returned).
Proof. reflexivity. Qed.

(** Cancellation: the client-to-server task has forwarded one message
    when the caller leaves the body; both tasks, answered with the
    cancellation, end there and nothing more is sent. *)
Example scenario_cancellation :
  exec isinstance_ClosedResourceError (Some log_error) None None mcp_proxy
    [Schedule ClientToServer; Resume ClientToServer (Yielded (inl 1));
     Resume ClientToServer SendReturned; Schedule ServerToClient;
     ExitScope BodyCompleted;
     Resume ClientToServer CancelledError;
     Resume ServerToClient CancelledError]
  = Some ([Op client_read Receive; Op server_write (Send 1);
           Op client_read Receive; Op server_read Receive] : list ScenarioEvent,
          both_cancelled).
Proof. reflexivity. Qed.

(** A handler that raises: raised from the handler of a transport
    error, its exception goes through both [except] blocks, each calling
    the handler again, and leaves the coroutine. *)
Example raising_handler_ends_loop :
  client_to_server_loop (Some reraise) None [Yielded (inr ValueError)]
  = Some ([Op client_read Receive;
           Log WARNING "client→server"; CallOnError ValueError;
           Log ERROR "client→server"; CallOnError ValueError;
           Log ERROR "client→server"; CallOnError ValueError],
          Done (Uncaught ValueError)).
Proof. reflexivity. Qed.

(** ** Runs under any answers *)

Lemma no_transform_sends_what_is_yielded_witness :
  sends mixed_trace = map (pair server_write) (yielded_messages mixed_script)
  /\ hook_calls mixed_trace = [].
Proof.
  apply (no_transform_sends_what_is_yielded isinstance_ClosedResourceError
           (Some log_error) client_read server_write "client→server"
           mixed_script mixed_trace (Done TaskCancelled));
    reflexivity.
Defined.

Lemma transform_sends_what_hook_returns_witness :
  hook_calls hooked_trace = yielded_messages hooked_script
  /\ sends hooked_trace
     = map (pair server_write) (returned_by_hook hooked_script).
Proof.
  apply (transform_sends_what_hook_returns isinstance_ClosedResourceError
           (Some log_error) client_read server_write "client→server"
           "h"%string hooked_script hooked_trace (Done Returned));
    reflexivity.
Defined.




Lemma handler_gets_every_failure_witness :
  handler_calls
    ([Op client_read Receive; Op server_write (Send 1);
      Log ERROR "client→server"; CallOnError BrokenResourceError;
      Op client_read Receive; Log WARNING "client→server";
      CallOnError ValueError; Op client_read Receive;
      Log DEBUG "client→server"] : list ScenarioEvent)
  = failures [Yielded (inl 1); Raised BrokenResourceError;
              Yielded (inr ValueError); Raised ClosedResourceError]
  \/ exists e,
       isinstance_ClosedResourceError e = true
       /\ failures [Yielded (inl 1); Raised BrokenResourceError;
                    Yielded (inr ValueError); Raised ClosedResourceError]
          = handler_calls
              ([Op client_read Receive; Op server_write (Send 1);
                Log ERROR "client→server"; CallOnError BrokenResourceError;
                Op client_read Receive; Log WARNING "client→server";
                CallOnError ValueError; Op client_read Receive;
                Log DEBUG "client→server"] : list ScenarioEvent)
            ++ [e]
       /\ (Done Returned : @Task nat PyException) = Done Returned.
Proof.
  apply (handler_gets_every_failure isinstance_ClosedResourceError
           (Some log_error) client_read server_write "client→server" None
           log_error
           [Yielded (inl 1); Raised BrokenResourceError;
            Yielded (inr ValueError); Raised ClosedResourceError]);
    reflexivity.
Defined.

(** ** Sessions *)

Lemma direction_wiring_witness :
  Forall (fun so => so = (read_of ServerToClient, Receive)
                    \/ exists m, so = (write_of ServerToClient, Send m))
         (stream_ops ([Op client_write (Send 5)] : list ScenarioEvent))
  /\ (forall f m,
        In (CallTransform f m) ([Op client_write (Send 5)] : list ScenarioEvent) ->
        hook_of None None ServerToClient = Some f)
  /\ (forall lvl label,
        In (Log lvl label) ([Op client_write (Send 5)] : list ScenarioEvent) ->
        label = label_of ServerToClient).
Proof.
  apply (direction_wiring isinstance_ClosedResourceError (Some log_error)
           None None in_flight both_sending ServerToClient
           (Resume ServerToClient (Yielded (inl 5))));
    [right; eexists; reflexivity | reflexivity].
Defined.

Lemma scope_cancelled_only_by_exit_witness :
  cancel_called client_returned = cancel_called (@mcp_proxy nat PyException)
  /\ in_body client_returned = in_body (@mcp_proxy nat PyException)
  /\ (forall d e, task client_returned d = Done (Uncaught e) ->
                  task (@mcp_proxy nat PyException) d = Done (Uncaught e)).
Proof.
  apply (scope_cancelled_only_by_exit isinstance_ClosedResourceError
           (Some log_error) (@None string) None
           [Schedule ClientToServer;
            Resume ClientToServer (Yielded (inr ValueError));
            Resume ClientToServer (Raised ValueError)]
           mcp_proxy client_returned
           [Op client_read Receive; Log WARNING "client→server";
            CallOnError ValueError; Op client_read Receive;
            Log ERROR "client→server"; CallOnError ValueError]);
    [intros exc; reflexivity | repeat constructor | reflexivity].
Defined.


(** ** With a shared handler *)





(** C6 as stated does not hold of every handler.  Here the handler
    returns from its first call and raises on the later ones.  The
    first failing send is reported and the loop goes on; the second is
    reported at line 126, the handler raises, the outer [except]
    reports that at line 135, the handler raises again, and the
    exception leaves the coroutine: a send failure has ended the
    loop. *)
Lemma send_failure_isolated_counterexample :
  client_to_server_loop_in (Some returns_once) None
    [Yielded (inl 1); Raised BrokenResourceError;
     Yielded (inl 2); Raised BrokenResourceError] 0
  = Some (([Op client_read Receive; Op server_write (Send 1);
            Log ERROR "client→server"; CallOnError BrokenResourceError;
            Op client_read Receive; Op server_write (Send 2);
            Log ERROR "client→server"; CallOnError BrokenResourceError;
            Log ERROR "client→server"; CallOnError BrokenResourceError],
           Done (Uncaught BrokenResourceError)), 3)
  /\ client_to_server_loop_in (Some returns_once) None
       [Yielded (inl 1); Raised BrokenResourceError;
        Yielded (inl 2); Raised BrokenResourceError; Yielded (inl 3)] 0
     = None.
Proof. split; reflexivity. Qed.

Lemma send_failure_isolated_if_handler_returns_witness :
  exists ev,
    client_to_server_loop_in (Some returns_once) None
      ([Yielded (inl 1)]
         ++ Raised ClosedResourceError
         :: [Yielded (inl 2); SendReturned; StopAsyncIteration]) 0
    = Some (([Op client_read Receive; Op server_write (Send 1)]
               ++ ev ++ [Op server_write (Send 2); Op client_read Receive],
             Done Returned), 1)
    /\ client_to_server_loop_in (Some returns_once) None
         ([Yielded (inl 1)] ++ [Raised ClosedResourceError]) 0
       = Some (([Op client_read Receive; Op server_write (Send 1)] ++ ev,
                Susp AtReceive), 1)
    /\ handler_calls ev = [ClosedResourceError]
    /\ sends ev = []
    /\ error_records ev = ["client→server"%string]
    /\ stream_ops ev = [(client_read, Receive)].
Proof.
  apply (send_failure_isolated_if_handler_returns
           isinstance_ClosedResourceError (Some returns_once) client_read
           server_write "client→server" None 1 ClosedResourceError
           [Yielded (inl 1)]
           [Yielded (inl 2); SendReturned; StopAsyncIteration]
           _ _ _ 0 0 1 1);
    reflexivity.
Defined.





(** The two orders of two resumptions that both call a handler with a
    state: the handler returns to whichever task calls it first and
    raises to the other, so the task that ends is not the same. *)
Example shared_handler_couples_directions :
  session_in (Some returns_once) both_receiving 0
    [Act (Resume ClientToServer (Yielded (inr ValueError)));
     Act (Resume ServerToClient (Yielded (inr BrokenResourceError)))]
  = Some ([Log WARNING "client→server"; CallOnError ValueError;
           Op client_read Receive; Log WARNING "server→client";
           CallOnError BrokenResourceError; Log ERROR "server→client";
           CallOnError BrokenResourceError; Log ERROR "server→client";
           CallOnError BrokenResourceError],
          set_task both_receiving ServerToClient
            (Done (Uncaught BrokenResourceError)), 4)
  /\ session_in (Some returns_once) both_receiving 0
       [Act (Resume ServerToClient (Yielded (inr BrokenResourceError)));
        Act (Resume ClientToServer (Yielded (inr ValueError)))]
     = Some ([Log WARNING "server→client"; CallOnError BrokenResourceError;
              Op server_read Receive; Log WARNING "client→server";
              CallOnError ValueError; Log ERROR "client→server";
              CallOnError ValueError; Log ERROR "client→server";
              CallOnError ValueError],
             set_task both_receiving ClientToServer
               (Done (Uncaught ValueError)), 4).
Proof. split; reflexivity. Qed.


Lemma each_direction_sends_its_own_witness :
  sends_on (write_of ClientToServer)
    two_directions_trace
  = forwarded (hook_of (@None string) None ClientToServer)
      (answers_in ClientToServer
         two_directions)
  /\ (forall (alone : option (Handler (HandlerState := unit))) k k' st,
        forward_messages_in_state isinstance_ClosedResourceError alone
          (read_of ClientToServer) (write_of ClientToServer)
          (hook_of (@None string) None ClientToServer)
          (label_of ClientToServer)
          (answers_in ClientToServer
             two_directions) k
        = Some (st, k') ->
        sends (fst st)
        = map (pair (write_of ClientToServer))
            (sends_on (write_of ClientToServer)
               two_directions_trace)).
Proof.
  apply (each_direction_sends_its_own isinstance_ClosedResourceError
           (Some reraise_in) None None ClientToServer two_directions
           (set_task
              (set_task mcp_proxy ClientToServer (Susp (AtSend 2)))
              ServerToClient (Done (Uncaught ValueError)))
           tt tt two_directions_trace);
    reflexivity.
Defined.

Lemma streams_never_closed_in_any_session_witness :
  Forall reads_or_sends (stream_ops two_directions_trace)
  /\ (forall s, ~ In (s, Close) (stream_ops two_directions_trace))
  /\ (forall closed, closed_after two_directions_trace closed = closed).
Proof.
  apply (streams_never_closed_in_any_session isinstance_ClosedResourceError
           (Some reraise_in) None None two_directions
           (set_task
              (set_task mcp_proxy ClientToServer (Susp (AtSend 2)))
              ServerToClient (Done (Uncaught ValueError)))
           tt tt two_directions_trace);
    reflexivity.
Defined.

Lemma returning_handler_keeps_session_witness :
  cancel_called both_receiving = cancel_called in_flight
  /\ in_body both_receiving = in_body in_flight
  /\ (forall d, ended_by_exception (task both_receiving d) = false)
  /\ ~ In GroupCancels
         two_failures.
Proof.
  apply (returning_handler_keeps_session isinstance_ClosedResourceError
           (Some log_error_in) (@None string) None
           two_failures
           in_flight both_receiving tt tt
           [Log WARNING "server→client"; CallOnError ValueError;
            Op server_read Receive; Log ERROR "client→server";
            CallOnError BrokenResourceError; Op client_read Receive]).
  - intros k exc. exists k. reflexivity.
  - repeat (constructor; [intros how; discriminate|]). constructor.
  - intros d; destruct d; reflexivity.
  - reflexivity.
Defined.
